(** * Extension path resolution and thread-affine loading

    A shallow embedding of [browser/extension_util.cc] (namespace
    [client::extension_util]): the path resolver, the manifest loader
    with its task reposting between browser threads, the resource
    provider registration and the manifest accessors.

    Conventions.  A [std::string] is a [string]; the conversions
    between [std::string] and [CefString] are the identity.  The
    [std::out_of_range] of [substr] is an [option]; in the code that
    posts tasks it ends the process.  What the preprocessor decides
    ([OS_WIN], [OS_POSIX]) and what the host answers ([CefGetPath],
    [LoadBinaryResource], the JSON parser, ...) are parameters.  A
    function that tests [CefCurrentlyOn] takes the thread it runs on as
    its first argument; its effects on the engine, the log and the task
    queues are collected in a [World]. *)

From Stdlib Require Import String Ascii List Bool Arith ZArith Lia.
Import ListNotations.
Open Scope string_scope.
Open Scope bool_scope.

(** ** [std::string] operations used by the file *)

Module StdString.

(** [s.empty()] *)
Definition empty (s : string) : bool :=
  match s with
  | EmptyString => true
  | String _ _ => false
  end.

(** Comparison of [pat] with the characters of [s] from its first one:
    what [find] tests at each candidate position. *)
Fixpoint match_here (pat s : string) : bool :=
  match pat with
  | EmptyString => true
  | String c pat' =>
      match s with
      | EmptyString => false
      | String d s' => Ascii.eqb c d && match_here pat' s'
      end
  end.

(** [s.find(pat)]: the least position where [pat] occurs in [s];
    [None] stands for [std::string::npos]. *)
Fixpoint find (s pat : string) : option nat :=
  if match_here pat s then Some 0
  else match s with
       | EmptyString => None
       | String _ s' => option_map S (find s' pat)
       end.

(** The characters of [s] from position [pos] on, for [pos <= size]. *)
Fixpoint drop (pos : nat) (s : string) : string :=
  match pos with
  | 0 => s
  | S pos' =>
      match s with
      | EmptyString => EmptyString
      | String _ s' => drop pos' s'
      end
  end.

(** [s.substr(pos)]: throws [std::out_of_range] ([None]) when
    [pos > s.size()]. *)
Definition substr (s : string) (pos : nat) : option string :=
  if Nat.leb pos (String.length s) then Some (drop pos s) else None.

(** [std::replace(s.begin(), s.end(), old, new)] *)
Fixpoint replace (old new : ascii) (s : string) : string :=
  match s with
  | EmptyString => EmptyString
  | String c s' =>
      String (if Ascii.eqb c old then new else c) (replace old new s')
  end.

(** [s.c_str()] as a callee reads it: up to the first NUL. *)
Fixpoint c_str (s : string) : string :=
  match s with
  | EmptyString => EmptyString
  | String c s' =>
      if Ascii.eqb c zero then EmptyString else String c (c_str s')
  end.

End StdString.

(** [pos == 0U] for a position returned by [find]. *)
Definition is_pos0 (p : option nat) : bool :=
match p with
| Some 0 => true
| _ => false
end.

(** ** Build parameters and CEF types *)

(** The two build targets the file distinguishes by preprocessor. *)
Inductive platform : Type :=
| OS_WIN
| OS_POSIX.

(** Keys of [CefGetPath]; the file asks for [PK_DIR_RESOURCES] only. *)
Inductive cef_path_key_t : Type :=
| PK_DIR_CURRENT
| PK_DIR_EXE
| PK_DIR_MODULE
| PK_DIR_TEMP
| PK_FILE_EXE
| PK_FILE_MODULE
| PK_LOCAL_APP_DATA
| PK_USER_DATA
| PK_DIR_RESOURCES.

(** The browser threads of [cef_thread_id_t]; the file names [TID_UI],
    [TID_FILE] and [TID_IO]. *)
Inductive cef_thread_id_t : Type :=
| TID_UI
| TID_DB
| TID_FILE
| TID_FILE_USER_BLOCKING
| TID_PROCESS_LAUNCHER
| TID_CACHE
| TID_IO
| TID_RENDERER.

Definition thread_eqb (a b : cef_thread_id_t) : bool :=
  match a, b with
  | TID_UI, TID_UI
  | TID_DB, TID_DB
  | TID_FILE, TID_FILE
  | TID_FILE_USER_BLOCKING, TID_FILE_USER_BLOCKING
  | TID_PROCESS_LAUNCHER, TID_PROCESS_LAUNCHER
  | TID_CACHE, TID_CACHE
  | TID_IO, TID_IO
  | TID_RENDERER, TID_RENDERER => true
  | _, _ => false
  end.

Inductive cef_value_type_t : Type :=
| VTYPE_INVALID
| VTYPE_NULL
| VTYPE_BOOL
| VTYPE_INT
| VTYPE_DOUBLE
| VTYPE_STRING
| VTYPE_BINARY
| VTYPE_DICTIONARY
| VTYPE_LIST.

Definition value_type_eqb (a b : cef_value_type_t) : bool :=
  match a, b with
  | VTYPE_INVALID, VTYPE_INVALID
  | VTYPE_NULL, VTYPE_NULL
  | VTYPE_BOOL, VTYPE_BOOL
  | VTYPE_INT, VTYPE_INT
  | VTYPE_DOUBLE, VTYPE_DOUBLE
  | VTYPE_STRING, VTYPE_STRING
  | VTYPE_BINARY, VTYPE_BINARY
  | VTYPE_DICTIONARY, VTYPE_DICTIONARY
  | VTYPE_LIST, VTYPE_LIST => true
  | _, _ => false
  end.

(** A [CefValue]: a parsed JSON value.  A dictionary keeps its entries
    in order; a double is kept as its source text. *)
#[warnings="-register-all"]
Inductive CefValue : Type :=
| V_NULL
| V_BOOL (b : bool)
| V_INT (i : Z)
| V_DOUBLE (text : string)
| V_STRING (s : string)
| V_BINARY (bytes : list ascii)
| V_DICTIONARY (entries : list (string * CefValue))
| V_LIST (items : list CefValue).

Definition CefDictionaryValue : Type := list (string * CefValue).

Definition CefValue_GetType (v : CefValue) : cef_value_type_t :=
  match v with
  | V_NULL => VTYPE_NULL
  | V_BOOL _ => VTYPE_BOOL
  | V_INT _ => VTYPE_INT
  | V_DOUBLE _ => VTYPE_DOUBLE
  | V_STRING _ => VTYPE_STRING
  | V_BINARY _ => VTYPE_BINARY
  | V_DICTIONARY _ => VTYPE_DICTIONARY
  | V_LIST _ => VTYPE_LIST
  end.

(** [value->GetDictionary()]: null unless the value is a dictionary. *)
Definition CefValue_GetDictionary (v : CefValue)
  : option CefDictionaryValue :=
  match v with
  | V_DICTIONARY entries => Some entries
  | _ => None
  end.

(** The value stored under [key], if any. *)
Fixpoint dictionary_get (d : CefDictionaryValue) (key : string)
  : option CefValue :=
  match d with
  | [] => None
  | (k, v) :: d' => if String.eqb k key then Some v else dictionary_get d' key
  end.

(** [dict->GetDictionary(key)]: null when [key] is absent or holds
    something else than a dictionary. *)
Definition GetDictionary (d : CefDictionaryValue) (key : string)
  : option CefDictionaryValue :=
  match dictionary_get d key with
  | Some v => CefValue_GetDictionary v
  | None => None
  end.

(** [dict->GetString(key)]: empty when [key] is absent or holds
    something else than a string. *)
Definition GetString (d : CefDictionaryValue) (key : string) : string :=
  match dictionary_get d key with
  | Some (V_STRING s) => s
  | _ => EmptyString
  end.

(** A loaded [CefExtension], seen through the three accessors the file
    calls. *)
Record CefExtension : Type := {
  GetIdentifier : string;
  GetPath : string;
  GetManifest : CefDictionaryValue
}.

(** Engine objects the file only passes on. *)
Definition CefRequestContext : Type := nat.
Definition CefExtensionHandler : Type := nat.
Definition CefResourceManager : Type := nat.

Definition backslash : ascii := "\"%char.
Definition slash : ascii := "/"%char.

(** ** Bound closures, effects and the world they act on *)

(** The one [ManifestCallback] the file builds with [base::Bind]. *)
Inductive ManifestCallback : Type :=
| Bind_LoadExtensionWithManifest
    (request_context : CefRequestContext) (extension_path : string)
    (handler : CefExtensionHandler).

(** The tasks the file hands to [CefPostTask]. *)
Inductive Closure : Type :=
| Bind_RunManifestCallback
    (callback : ManifestCallback) (manifest : option CefDictionaryValue)
| Bind_GetInternalManifest
    (extension_path : string) (callback : ManifestCallback)
| Bind_LoadExtension
    (request_context : CefRequestContext) (extension_path : string)
    (handler : CefExtensionHandler)
| Bind_AddInternalExtensionToResourceManager
    (extension : CefExtension) (resource_manager : CefResourceManager).

(** What the code does to its collaborators, each with the thread it
    happens on. *)
Inductive Event : Type :=
| Ev_LOG_ERROR (on : cef_thread_id_t) (message : string)
| Ev_CefPostTask (on target : cef_thread_id_t) (task : Closure)
| Ev_LoadBinaryResource (on : cef_thread_id_t) (resource_name : string)
| Ev_CallbackRun
    (on : cef_thread_id_t) (callback : ManifestCallback)
    (manifest : option CefDictionaryValue)
| Ev_LoadExtension
    (on : cef_thread_id_t) (request_context : CefRequestContext)
    (extension_path : string) (manifest : option CefDictionaryValue)
    (handler : CefExtensionHandler)
| Ev_AddProvider
    (on : cef_thread_id_t) (resource_manager : CefResourceManager)
    (origin resource_path : string) (order : nat) (identifier : string)
| Ev_AddDirectoryProvider
    (on : cef_thread_id_t) (resource_manager : CefResourceManager)
    (origin directory : string) (order : nat) (identifier : string).

(** The tasks posted and not yet run, oldest first, each with its target
    thread, and the effects so far, oldest first. *)
Record World : Type := {
  pending : list (cef_thread_id_t * Closure);
  trace : list Event
}.

Definition idle : World := {| pending := []; trace := [] |}.

(** A call ends normally or in a fatal fault (a failed check, an
    exception nobody catches). *)
Inductive Outcome (A : Type) : Type :=
| Done (a : A) (w : World)
| Fatal (what : string) (w : World).

Arguments Done {A} a w.
Arguments Fatal {A} what w.

Definition M (A : Type) : Type := World -> Outcome A.

Definition ret {A : Type} (a : A) : M A := fun w => Done a w.

Definition bind {A B : Type} (m : M A) (f : A -> M B) : M B :=
  fun w =>
    match m w with
    | Done a w' => f a w'
    | Fatal what w' => Fatal what w'
    end.

Notation "x <- m ;; k" := (bind m (fun x => k))
  (at level 61, m at next level, right associativity).
Notation "m ;;; k" := (bind m (fun _ => k))
  (at level 61, right associativity).

Definition emit (e : Event) : M unit :=
  fun w => Done tt {| pending := pending w; trace := trace w ++ [e] |}.

(** Modelled from the spec: the [DCHECK] macro of
    [cef/base/cef_logging.h], which is not among the sources.  The spec
    has a violated check fail fast, as a fault and not as an error the
    caller could handle. *)
Definition DCHECK (condition : bool) : M unit :=
  fun w => if condition then Done tt w else Fatal "Check failed" w.

(** The exceptions of the pure string code are threaded as [option]. *)
Definition obind {A B : Type} (m : option A) (f : A -> option B)
  : option B :=
  match m with
  | Some a => f a
  | None => None
  end.

Notation "x <-? m ;; k" := (obind m (fun x => k))
  (at level 61, m at next level, right associativity).

(** An exception that leaves a task is fatal. *)
Definition unhandled {A : Type} (r : option A) : M A :=
  fun w =>
    match r with
    | Some a => Done a w
    | None => Fatal "std::out_of_range" w
    end.

Definition CefCurrentlyOn (current threadId : cef_thread_id_t) : bool :=
  thread_eqb current threadId.

(** [CefPostTask(threadId, task)]: the task joins the tasks waiting for
    [threadId]. *)
Definition CefPostTask (current threadId : cef_thread_id_t) (task : Closure)
  : M unit :=
  fun w =>
    Done tt {| pending := pending w ++ [(threadId, task)];
               trace := trace w ++ [Ev_CefPostTask current threadId task] |}.

Definition LOG_ERROR (current : cef_thread_id_t) (message : string)
  : M unit :=
  emit (Ev_LOG_ERROR current message).

Section Host.

(** Which of [OS_WIN] / [OS_POSIX] the build defines. *)
Variable os : platform.

(** [file_util::kPathSep], declared in [browser/file_util.h]. *)
Variable kPathSep : ascii.

(** [CefGetPath(key, out)]: [None] when it returns false, otherwise
    the directory written to [out]. *)
Variable CefGetPath : cef_path_key_t -> option string.

(** [file_util::JoinPath], declared in [browser/file_util.h]. *)
Variable JoinPath : string -> string -> string.

(** [LoadBinaryResource(name, out)] of [browser/resource_util.h]: the
    flag it returns and the contents of [out] after the call. *)
Variable LoadBinaryResource : string -> bool * string.

(** [GetResourceDir(out)] of [browser/resource_util.h] (POSIX builds). *)
Variable GetResourceDir : option string.

(** [CefParseJSONAndReturnError] with [JSON_PARSER_RFC]: the value, null
    on a parse error, and the error message; the error code is never
    read. *)
Variable CefParseJSONAndReturnError : string -> option CefValue * string.

Definition GetResourcesPath : string :=
  match CefGetPath PK_DIR_RESOURCES with
  | Some resources_dir =>
      if negb (StdString.empty resources_dir)
      then resources_dir ++ String kPathSep EmptyString
      else EmptyString
  | None => EmptyString
  end.

(** Internal extension paths may be prefixed with PK_DIR_RESOURCES and
    always use forward slash as path separator. *)
Definition GetInternalPath (extension_path : string) : option string :=
  let resources_path := GetResourcesPath in
  internal_path <-?
    (if negb (StdString.empty resources_path)
        && is_pos0 (StdString.find extension_path resources_path)
     then StdString.substr extension_path (String.length resources_path)
     else Some extension_path) ;;
  Some match os with
       | OS_WIN => StdString.replace backslash slash internal_path
       | OS_POSIX => internal_path
       end.

(** List of internally handled extensions. *)
Definition extensions : list string := ["set_page_color"].

(** The [for] loop over [extensions]: exact match or first directory
    component. *)
Fixpoint IsInternalExtension_loop (internal_path : string)
         (exts : list string) : bool :=
  match exts with
  | [] => false
  | extension :: rest =>
      if String.eqb internal_path extension
         || is_pos0 (StdString.find internal_path
                                    (extension ++ String slash EmptyString))
      then true
      else IsInternalExtension_loop internal_path rest
  end.

Definition IsInternalExtension (extension_path : string) : option bool :=
  internal_path <-? GetInternalPath extension_path ;;
  Some (IsInternalExtension_loop internal_path extensions).

Definition GetInternalExtensionResourcePath (extension_path : string)
  : option string :=
  internal_path <-? GetInternalPath extension_path ;;
  Some ("extensions/" ++ internal_path).

(** The [bool* internal] argument is the cell it points to: [None] for
    a null pointer, [Some b] for a cell holding [b].  The function
    returns its string and the cell after the call. *)
Definition GetExtensionResourcePath (extension_path : string)
           (internal : option bool) : option (string * option bool) :=
  is_internal <-? IsInternalExtension extension_path ;;
  let internal' :=
    match internal with
    | Some _ => Some is_internal
    | None => None
    end in
  if is_internal
  then r <-? GetInternalExtensionResourcePath extension_path ;;
       Some (r, internal')
  else Some (extension_path, internal').

Definition GetExtensionOrigin (extension_id : string) : string :=
  "chrome-extension://" ++ extension_id ++ "/".

Definition GetExtensionURL (extension : CefExtension) : string :=
  match GetDictionary (GetManifest extension) "browser_action" with
  | Some browser_action =>
      let default_popup := GetString browser_action "default_popup" in
      if negb (StdString.empty default_popup)
      then GetExtensionOrigin (GetIdentifier extension) ++ default_popup
      else EmptyString
  | None => EmptyString
  end.

Definition GetExtensionIconPath (extension : CefExtension)
           (internal : option bool) : option (string * option bool) :=
  match GetDictionary (GetManifest extension) "browser_action" with
  | Some browser_action =>
      let default_icon := GetString browser_action "default_icon" in
      if negb (StdString.empty default_icon)
      then GetExtensionResourcePath
             (JoinPath (GetPath extension) default_icon) internal
      else Some (EmptyString, internal)
  | None => Some (EmptyString, internal)
  end.

(** ** The manifest loader *)

Definition CEF_REQUIRE_UI_THREAD (current : cef_thread_id_t) : M unit :=
  DCHECK (CefCurrentlyOn current TID_UI).

(** Load the extension internally. *)
Definition LoadExtensionWithManifest (current : cef_thread_id_t)
           (request_context : CefRequestContext) (extension_path : string)
           (handler : CefExtensionHandler)
           (manifest : option CefDictionaryValue) : M unit :=
  CEF_REQUIRE_UI_THREAD current ;;;
  emit (Ev_LoadExtension current request_context extension_path manifest
                         handler).

(** [callback.Run(manifest)] *)
Definition ManifestCallback_Run (current : cef_thread_id_t)
           (callback : ManifestCallback)
           (manifest : option CefDictionaryValue) : M unit :=
  emit (Ev_CallbackRun current callback manifest) ;;;
  match callback with
  | Bind_LoadExtensionWithManifest request_context extension_path handler =>
      LoadExtensionWithManifest current request_context extension_path
                                handler manifest
  end.

Definition RunManifestCallback (current : cef_thread_id_t)
           (callback : ManifestCallback)
           (manifest : option CefDictionaryValue) : M unit :=
  if negb (CefCurrentlyOn current TID_UI)
  then (* Execute on the browser UI thread. *)
    CefPostTask current TID_UI (Bind_RunManifestCallback callback manifest)
  else ManifestCallback_Run current callback manifest.

(** Asynchronously reads the manifest and executes [callback] on the UI
    thread. *)
Definition GetInternalManifest (current : cef_thread_id_t)
           (extension_path : string) (callback : ManifestCallback)
  : M unit :=
  if negb (CefCurrentlyOn current TID_FILE)
  then (* Execute on the browser FILE thread. *)
    CefPostTask current TID_FILE
                (Bind_GetInternalManifest extension_path callback)
  else
    manifest_path <-
      unhandled (GetInternalExtensionResourcePath
                   (JoinPath extension_path "manifest.json")) ;;
    emit (Ev_LoadBinaryResource current (StdString.c_str manifest_path)) ;;;
    let (loaded, manifest_contents) :=
      LoadBinaryResource (StdString.c_str manifest_path) in
    if negb loaded || StdString.empty manifest_contents
    then
      LOG_ERROR current ("Failed to load manifest from " ++ manifest_path) ;;;
      RunManifestCallback current callback None
    else
      let (value, error_msg) :=
        CefParseJSONAndReturnError manifest_contents in
      if match value with
         | None => true
         | Some v =>
             negb (value_type_eqb (CefValue_GetType v) VTYPE_DICTIONARY)
         end
      then
        let error_msg :=
          if StdString.empty error_msg
          then "Incorrectly formatted dictionary contents."
          else error_msg in
        LOG_ERROR current ("Failed to parse manifest from " ++ manifest_path
                             ++ "; " ++ error_msg) ;;;
        RunManifestCallback current callback None
      else
        RunManifestCallback current callback
                            (v <-? value ;; CefValue_GetDictionary v).

Definition LoadExtension (current : cef_thread_id_t)
           (request_context : CefRequestContext) (extension_path : string)
           (handler : CefExtensionHandler) : M unit :=
  if negb (CefCurrentlyOn current TID_UI)
  then (* Execute on the browser UI thread. *)
    CefPostTask current TID_UI
                (Bind_LoadExtension request_context extension_path handler)
  else
    is_internal <- unhandled (IsInternalExtension extension_path) ;;
    if is_internal
    then (* Read the extension manifest and load asynchronously. *)
      GetInternalManifest current extension_path
        (Bind_LoadExtensionWithManifest request_context extension_path
                                        handler)
    else (* Load the extension from disk. *)
      emit (Ev_LoadExtension current request_context extension_path None
                             handler).

(** ** Resource provider registration *)

Definition AddInternalExtensionToResourceManager (current : cef_thread_id_t)
           (extension : CefExtension) (resource_manager : CefResourceManager)
  : M unit :=
  is_internal <- unhandled (IsInternalExtension (GetPath extension)) ;;
  DCHECK is_internal ;;;
  if negb (CefCurrentlyOn current TID_IO)
  then (* Execute on the browser IO thread. *)
    CefPostTask current TID_IO
                (Bind_AddInternalExtensionToResourceManager
                   extension resource_manager)
  else
    let origin := GetExtensionOrigin (GetIdentifier extension) in
    resource_path <-
      unhandled (GetInternalExtensionResourcePath (GetPath extension)) ;;
    match os with
    | OS_WIN =>
        (* Read resources from the binary. *)
        emit (Ev_AddProvider current resource_manager origin resource_path
                             50 EmptyString)
    | OS_POSIX =>
        (* Read resources from a directory on disk. *)
        match GetResourceDir with
        | Some resource_dir =>
            emit (Ev_AddDirectoryProvider
                    current resource_manager origin
                    (resource_dir ++ "/" ++ resource_path) 50 EmptyString)
        | None => ret tt
        end
    end.

(** ** Running posted tasks *)

(** What thread [current] does when it runs [task]. *)
Definition run_closure (current : cef_thread_id_t) (task : Closure)
  : M unit :=
  match task with
  | Bind_RunManifestCallback callback manifest =>
      RunManifestCallback current callback manifest
  | Bind_GetInternalManifest extension_path callback =>
      GetInternalManifest current extension_path callback
  | Bind_LoadExtension request_context extension_path handler =>
      LoadExtension current request_context extension_path handler
  | Bind_AddInternalExtensionToResourceManager extension resource_manager =>
      AddInternalExtensionToResourceManager current extension
                                            resource_manager
  end.

(** The oldest task waiting for thread [t], and the tasks left. *)
Fixpoint dequeue (t : cef_thread_id_t) (q : list (cef_thread_id_t * Closure))
  : option (Closure * list (cef_thread_id_t * Closure)) :=
  match q with
  | [] => None
  | (t', task) :: q' =>
      if thread_eqb t t' then Some (task, q')
      else match dequeue t q' with
           | Some (found, rest) => Some (found, (t', task) :: rest)
           | None => None
           end
  end.

(** The browser process: running, or stopped by a fatal fault. *)
Inductive Process : Type :=
| Alive (w : World)
| Crashed (what : string) (w : World).

Definition after {A : Type} (o : Outcome A) : Process :=
  match o with
  | Done _ w => Alive w
  | Fatal what w => Crashed what w
  end.

Definition world_of (p : Process) : World :=
  match p with
  | Alive w => w
  | Crashed _ w => w
  end.

(** Some thread takes its oldest task and runs it to its end.  Tasks of
    one thread run in the order they were posted; nothing orders the
    threads among themselves. *)
Inductive step : Process -> Process -> Prop :=
| step_run (w : World) (t : cef_thread_id_t) (task : Closure)
           (rest : list (cef_thread_id_t * Closure)) :
    dequeue t (pending w) = Some (task, rest) ->
    step (Alive w)
         (after (run_closure t task {| pending := rest; trace := trace w |})).

Inductive steps : Process -> Process -> Prop :=
| steps_refl (p : Process) : steps p p
| steps_step (p q r : Process) : step p q -> steps q r -> steps p r.

(** Running, with no task left to run. *)
Definition quiescent (p : Process) : Prop :=
  exists w, p = Alive w /\ pending w = [].

(** One schedule among the possible ones: the oldest task of all runs
    first, on its thread, [fuel] times at most. *)
Fixpoint drain (fuel : nat) (p : Process) : Process :=
  match fuel, p with
  | S fuel', Alive w =>
      match pending w with
      | [] => p
      | (t, task) :: rest =>
          drain fuel'
                (after (run_closure t task
                          {| pending := rest; trace := trace w |}))
      end
  | _, _ => p
  end.

End Host.

(** ** Reading a trace *)

(** The manifests handed to a continuation, with the thread each was
    handed over on. *)
Fixpoint deliveries (tr : list Event)
  : list (cef_thread_id_t * ManifestCallback * option CefDictionaryValue) :=
  match tr with
  | [] => []
  | Ev_CallbackRun on callback manifest :: tr' =>
      (on, callback, manifest) :: deliveries tr'
  | _ :: tr' => deliveries tr'
  end.

Fixpoint error_logs (tr : list Event) : list string :=
  match tr with
  | [] => []
  | Ev_LOG_ERROR _ message :: tr' => message :: error_logs tr'
  | _ :: tr' => error_logs tr'
  end.

Fixpoint resource_reads (tr : list Event) : list string :=
  match tr with
  | [] => []
  | Ev_LoadBinaryResource _ name :: tr' => name :: resource_reads tr'
  | _ :: tr' => resource_reads tr'
  end.

(** The engine calls [request_context->LoadExtension(...)]. *)
Fixpoint engine_loads (tr : list Event) : list Event :=
  match tr with
  | [] => []
  | Ev_LoadExtension on rc path manifest handler :: tr' =>
      Ev_LoadExtension on rc path manifest handler :: engine_loads tr'
  | _ :: tr' => engine_loads tr'
  end.

(** The tasks posted to the FILE thread. *)
Fixpoint file_posts (tr : list Event) : list Closure :=
  match tr with
  | [] => []
  | Ev_CefPostTask _ TID_FILE task :: tr' => task :: file_posts tr'
  | _ :: tr' => file_posts tr'
  end.

(** ** The path contract in the words of the specification *)

(** Stripping the bundled-resources prefix, when the path starts with
    it. *)
Definition spec_strip_prefix (root path : string) : string :=
  if String.prefix root path
  then String.substring (String.length root)
                        (String.length path - String.length root) path
  else path.

(** The remaining path as the claim words it: every backslash becomes a
    forward slash, whatever the build. *)
Definition spec_relative_path_claimed (root path : string) : string :=
  StdString.replace backslash slash (spec_strip_prefix root path).

(** The remaining path with the separators normalised where the build
    has backslash separators, that is in Windows builds. *)
Definition spec_relative_path (os : platform) (root path : string)
  : string :=
  match os with
  | OS_WIN => StdString.replace backslash slash (spec_strip_prefix root path)
  | OS_POSIX => spec_strip_prefix root path
  end.

(** [rel] equals the name [n], or begins with [n] followed by a slash. *)
Definition names_extension (rel n : string) : Prop :=
  rel = n \/ exists s, rel = n ++ "/" ++ s.

(** The first path segment: the characters before the first slash. *)
Fixpoint first_segment (s : string) : string :=
  match s with
  | EmptyString => EmptyString
  | String c s' =>
      if Ascii.eqb c slash then EmptyString else String c (first_segment s')
  end.

(** Stripping the leading [extensions/] of an internal resource path. *)
Definition strip_extensions_prefix (s : string) : string :=
  if String.prefix "extensions/" s
  then String.substring 11 (String.length s - 11) s
  else s.

(** The manifest a load is to deliver, in the words of the
    specification: none when the load fails or yields nothing, when
    parsing fails or when the top-level value is no dictionary, and the
    parsed dictionary otherwise. *)
Definition spec_manifest (loaded : bool * string)
           (parse : string -> option CefValue * string)
  : option CefDictionaryValue :=
  if negb (fst loaded) then None
  else if String.eqb (snd loaded) "" then None
  else match fst (parse (snd loaded)) with
       | Some (V_DICTIONARY d) => Some d
       | _ => None
       end.

(** The string holds character [c]. *)
Fixpoint occurs (c : ascii) (s : string) : bool :=
  match s with
  | EmptyString => false
  | String d s' => Ascii.eqb d c || occurs c s'
  end.

(** A path malformed in the plainest ways: it holds a NUL character or
    an empty segment, that is two slashes in a row. *)
Definition spec_malformed (path : string) : bool :=
  occurs zero path
  || match StdString.find path "//" with
     | Some _ => true
     | None => false
     end.

(** ** Invariants of a run *)

(** Every manifest handed over in [tr] was handed over on the UI
    thread. *)
Definition on_UI_only (tr : list Event) : Prop :=
  forall on callback manifest,
    In (on, callback, manifest) (deliveries tr) -> on = TID_UI.

(** Whatever world it starts in, the computation only adds events to
    the trace, and what it adds satisfies [good]. *)
Definition extends_trace {A : Type} (good : list Event -> Prop) (m : M A)
  : Prop :=
  forall w, exists added,
    trace (world_of (after (m w))) = (trace w ++ added)%list /\ good added.

(** ** Reading the contents of an extension resource *)

Section ResourceContents.

Variable os : platform.
Variable kPathSep : ascii.
Variable CefGetPath : cef_path_key_t -> option string.
Variable LoadBinaryResource : string -> bool * string.

(** [file_util::ReadFileToString(path, &contents)] of
    [browser/file_util.h]: the flag it returns and the contents read. *)
Variable ReadFileToString : string -> bool * string.

Definition CEF_REQUIRE_FILE_THREAD (current : cef_thread_id_t) : M unit :=
  DCHECK (CefCurrentlyOn current TID_FILE).

(** The flag returned and [contents] after the call. *)
Definition GetExtensionResourceContents (current : cef_thread_id_t)
           (extension_path : string) : M (bool * string) :=
  CEF_REQUIRE_FILE_THREAD current ;;;
  is_internal <-
    unhandled (IsInternalExtension os kPathSep CefGetPath extension_path) ;;
  if is_internal
  then
    contents_path <-
      unhandled (GetInternalExtensionResourcePath os kPathSep CefGetPath
                                                  extension_path) ;;
    emit (Ev_LoadBinaryResource current (StdString.c_str contents_path)) ;;;
    ret (LoadBinaryResource (StdString.c_str contents_path))
  else ret (ReadFileToString extension_path).

(** A waiting registration is for an internal extension. *)
Definition registration_checked (entry : cef_thread_id_t * Closure) : Prop :=
  match snd entry with
  | Bind_AddInternalExtensionToResourceManager extension _ =>
      IsInternalExtension os kPathSep CefGetPath (GetPath extension)
      = Some true
  | _ => True
  end.

(** The computation ends normally in every world, and the tasks it
    posts are behind the tasks that were waiting and satisfy [ok]. *)
Definition completes {A : Type}
           (ok : cef_thread_id_t * Closure -> Prop) (m : M A) : Prop :=
  forall w, exists a w' posted,
    m w = Done a w'
    /\ pending w' = (pending w ++ posted)%list
    /\ Forall ok posted.

End ResourceContents.

(** ** Thread affinity of the effects *)

(** The thread an effect belongs on: the engine and the callback on the
    UI thread, resources and the log of the loader on the FILE thread,
    providers on the IO thread.  A task may be posted from anywhere. *)
Definition affine (e : Event) : Prop :=
  match e with
  | Ev_LOG_ERROR on _ => on = TID_FILE
  | Ev_CefPostTask _ _ _ => True
  | Ev_LoadBinaryResource on _ => on = TID_FILE
  | Ev_CallbackRun on _ _ => on = TID_UI
  | Ev_LoadExtension on _ _ _ _ => on = TID_UI
  | Ev_AddProvider on _ _ _ _ _ => on = TID_IO
  | Ev_AddDirectoryProvider on _ _ _ _ _ => on = TID_IO
  end.

Definition thread_affine (tr : list Event) : Prop := Forall affine tr.

(** The providers registered, oldest first. *)
Fixpoint providers (tr : list Event) : list Event :=
  match tr with
  | [] => []
  | Ev_AddProvider on rm origin path order identifier :: tr' =>
      Ev_AddProvider on rm origin path order identifier :: providers tr'
  | Ev_AddDirectoryProvider on rm origin dir order identifier :: tr' =>
      Ev_AddDirectoryProvider on rm origin dir order identifier
      :: providers tr'
  | _ :: tr' => providers tr'
  end.

(** The tasks posted, oldest first, each with its target. *)
Fixpoint posts (tr : list Event) : list (cef_thread_id_t * Closure) :=
  match tr with
  | [] => []
  | Ev_CefPostTask _ target task :: tr' => (target, task) :: posts tr'
  | _ :: tr' => posts tr'
  end.

(** ** The command line of the browser process
       ([browser/client_app_browser.cc]) *)

Module CommandLine.

(** A [CefCommandLine] as its switches, in the order they were given
    or appended, each with its value (empty for a bare switch). *)
Definition CefCommandLine : Type := list (string * string).

Definition HasSwitch (name : string) (command_line : CefCommandLine) : bool :=
  existsb (fun s => String.eqb (fst s) name) command_line.

Definition AppendSwitch (name : string) (command_line : CefCommandLine)
  : CefCommandLine :=
  (command_line ++ [(name, EmptyString)])%list.

Definition AppendSwitchWithValue (name value : string)
           (command_line : CefCommandLine) : CefCommandLine :=
  (command_line ++ [(name, value)])%list.

(** The values given to the switch [name], oldest first. *)
Definition values_of (name : string) (command_line : CefCommandLine)
  : list string :=
  map snd (filter (fun s => String.eqb (fst s) name) command_line).

(** The switch names of [common/client_switches.h] the file uses. *)
Record ClientSwitches : Type := {
  kUseViews : string;
  kHideFrame : string;
  kHideControls : string;
  kOffScreenRenderingEnabled : string;
  kSharedTextureEnabled : string;
  kEnableGPU : string;
  kCachePath : string
}.

(** A [ClientAppBrowser::Delegate], by what its
    [OnBeforeCommandLineProcessing] does to the command line it is
    handed. *)
Record Delegate : Type := {
  Delegate_OnBeforeCommandLineProcessing : CefCommandLine -> CefCommandLine
}.

Section App.

Variable switches : ClientSwitches.

(** [delegates_], in the order its iterator goes through it. *)
Variable delegates_ : list Delegate.

(** The flags passed to the browser process: the body of
    [if (process_type.empty())] up to the loop over the delegates. *)
Definition browser_process_flags (command_line : CefCommandLine)
  : CefCommandLine :=
  let command_line := AppendSwitch (kUseViews switches) command_line in
  let command_line := AppendSwitch (kHideFrame switches) command_line in
  let command_line := AppendSwitch (kHideControls switches) command_line in
  let command_line :=
    AppendSwitchWithValue "disable-web-security" "true" command_line in
  let command_line :=
    (* Pass additional command-line flags when off-screen rendering is
       enabled. *)
    if HasSwitch (kOffScreenRenderingEnabled switches) command_line
       && negb (HasSwitch (kSharedTextureEnabled switches) command_line)
    then
      if negb (HasSwitch (kEnableGPU switches) command_line)
      then AppendSwitch "disable-gpu-compositing"
                        (AppendSwitch "disable-gpu" command_line)
      else command_line
    else command_line in
  let command_line :=
    if HasSwitch (kUseViews switches) command_line
       && negb (HasSwitch "top-chrome-md" command_line)
    then AppendSwitchWithValue "top-chrome-md" "non-material" command_line
    else command_line in
  if negb (HasSwitch (kCachePath switches) command_line)
     && negb (HasSwitch "disable-gpu-shader-disk-cache" command_line)
  then AppendSwitch "disable-gpu-shader-disk-cache" command_line
  else command_line.

(** [ClientAppBrowser::OnBeforeCommandLineProcessing]: the command line
    after the call. *)
Definition OnBeforeCommandLineProcessing (process_type : string)
           (command_line : CefCommandLine) : CefCommandLine :=
  (* Pass additional command-line flags to the browser process. *)
  if StdString.empty process_type
  then
    fold_left (fun command_line delegate =>
                 Delegate_OnBeforeCommandLineProcessing delegate command_line)
              delegates_ (browser_process_flags command_line)
  else command_line.

(** The names the file tests or appends. *)
Definition switch_names : list string :=
  [kUseViews switches; kHideFrame switches; kHideControls switches;
   kOffScreenRenderingEnabled switches; kSharedTextureEnabled switches;
   kEnableGPU switches; kCachePath switches;
   "disable-web-security"; "disable-gpu"; "disable-gpu-compositing";
   "top-chrome-md"; "disable-gpu-shader-disk-cache"].

End App.

(** No two names of the list are the same. *)
Fixpoint all_distinct (names : list string) : bool :=
  match names with
  | [] => true
  | n :: rest =>
      negb (existsb (String.eqb n) rest) && all_distinct rest
  end.

End CommandLine.

(** ** A sample application *)

Module SampleApp.

Definition read_file (path : string) : bool * string :=
  if String.eqb path "/home/user/my_extension/popup.html"
  then (true, "<html></html>")
  else (false, "").

Definition switches : CommandLine.ClientSwitches :=
  {| CommandLine.kUseViews := "use-views";
     CommandLine.kHideFrame := "hide-frame";
     CommandLine.kHideControls := "hide-controls";
     CommandLine.kOffScreenRenderingEnabled := "off-screen-rendering-enabled";
     CommandLine.kSharedTextureEnabled := "shared-texture-enabled";
     CommandLine.kEnableGPU := "enable-gpu";
     CommandLine.kCachePath := "cache-path" |}.

End SampleApp.

(** ** A sample host *)

Module Sample.

Definition resources (key : cef_path_key_t) : option string :=
  match key with
  | PK_DIR_RESOURCES => Some "/opt/app"
  | _ => None
  end.

Definition join (path1 path2 : string) : string :=
  path1 ++ "/" ++ path2.

Definition manifest : CefDictionaryValue :=
  [("name", V_STRING "Set Page Color");
   ("browser_action",
    V_DICTIONARY [("default_icon", V_STRING "icon.png");
                  ("default_popup", V_STRING "popup.html")])].

Definition manifest_text : string := "{ manifest of set_page_color }".

Definition load (name : string) : bool * string :=
  if String.eqb name "extensions/set_page_color/manifest.json"
  then (true, manifest_text)
  else (false, "").

Definition parse (text : string) : option CefValue * string :=
  if String.eqb text manifest_text
  then (Some (V_DICTIONARY manifest), "")
  else (None, "Line: 1, column: 1, Unexpected token.").

Definition resource_dir : option string := Some "/opt/app/files".

End Sample.

(** * Properties *)

(** ** Facts about the string operations *)

Lemma match_here_app (pat rest : string) :
  StdString.match_here pat (pat ++ rest) = true.
Proof.
  induction pat as [|c pat IH]; simpl; [reflexivity|].
  now rewrite Ascii.eqb_refl, IH.
Qed.

Lemma match_here_split (pat s : string) :
  StdString.match_here pat s = true -> exists rest, s = pat ++ rest.
Proof.
  revert s; induction pat as [|c pat IH]; intros s H; simpl in *.
  - now exists s.
  - destruct s as [|d s]; [discriminate|].
    apply andb_true_iff in H as [Hc Hs].
    apply Ascii.eqb_eq in Hc; subst d.
    destruct (IH _ Hs) as [rest ->].
    now exists rest.
Qed.

Lemma match_here_iff (pat s : string) :
  StdString.match_here pat s = true <-> exists rest, s = pat ++ rest.
Proof.
  split; [apply match_here_split|].
  intros [rest ->]; apply match_here_app.
Qed.

(** [find] answers position 0 exactly when the pattern starts the
    string. *)
Lemma find_pos0 (s pat : string) :
  is_pos0 (StdString.find s pat) = StdString.match_here pat s.
Proof.
  destruct s as [|c s]; simpl;
    destruct (StdString.match_here pat _); try reflexivity.
  now destruct (StdString.find s pat).
Qed.

Lemma prefix_split (a s : string) :
  String.prefix a s = true <-> exists rest, s = a ++ rest.
Proof.
  revert s; induction a as [|c a IH]; intros s.
  - split; [now exists s | now destruct s].
  - destruct s as [|d s]; simpl.
    + split; [discriminate | intros [rest H]; discriminate].
    + destruct (ascii_dec c d) as [->|Hne].
      * rewrite IH; split; intros [rest H]; exists rest.
        -- now rewrite H.
        -- now inversion H.
      * split; [discriminate|].
        intros [rest H]; congruence.
Qed.

Lemma prefix_match_here (a s : string) :
  String.prefix a s = StdString.match_here a s.
Proof.
  destruct (StdString.match_here a s) eqn:E.
  - apply prefix_split, match_here_iff, E.
  - destruct (String.prefix a s) eqn:P; [|reflexivity].
    apply prefix_split, match_here_iff in P; congruence.
Qed.

Lemma length_app (a b : string) :
  String.length (a ++ b) = String.length a + String.length b.
Proof. induction a; simpl; congruence. Qed.

Lemma drop_app (a b : string) :
  StdString.drop (String.length a) (a ++ b) = b.
Proof. induction a; simpl; auto. Qed.

Lemma substring_all (s : string) :
  String.substring 0 (String.length s) s = s.
Proof. induction s; simpl; congruence. Qed.

Lemma substring_app (a b : string) :
  String.substring (String.length a)
                   (String.length (a ++ b) - String.length a) (a ++ b) = b.
Proof.
  rewrite length_app.
  replace (String.length a + String.length b - String.length a)
    with (String.length b) by lia.
  induction a; simpl; [apply substring_all | assumption].
Qed.

Lemma append_assoc (a b c : string) : (a ++ b) ++ c = a ++ (b ++ c).
Proof. induction a; simpl; congruence. Qed.

Lemma length_zero_empty (s : string) : String.length s = 0 -> s = "".
Proof. destruct s; simpl; [reflexivity|discriminate]. Qed.

Lemma empty_true (s : string) : StdString.empty s = true <-> s = "".
Proof. destruct s; simpl; split; congruence. Qed.


Lemma replace_app (old new : ascii) (a b : string) :
  StdString.replace old new (a ++ b)
  = StdString.replace old new a ++ StdString.replace old new b.
Proof. induction a; simpl; congruence. Qed.

Lemma replace_absent (old new : ascii) (s : string) :
  occurs old s = false -> StdString.replace old new s = s.
Proof.
  induction s as [|c s IH]; simpl; [reflexivity|].
  intros H; apply orb_false_iff in H as [Hc Hs].
  now rewrite Hc, IH.
Qed.

Lemma replace_clears (old new : ascii) (s : string) :
  old <> new -> occurs old (StdString.replace old new s) = false.
Proof.
  intros Hne; induction s as [|c s IH]; simpl; [reflexivity|].
  rewrite IH, orb_false_r.
  destruct (Ascii.eqb c old) eqn:E; [|assumption].
  apply Ascii.eqb_neq; congruence.
Qed.

Lemma occurs_app (c : ascii) (a b : string) :
  occurs c (a ++ b) = occurs c a || occurs c b.
Proof. induction a; simpl; [reflexivity|]. now rewrite IHa, orb_assoc. Qed.

(** ** The path resolver *)

Section PathResolverFacts.

Variable os : platform.
Variable kPathSep : ascii.
Variable CefGetPath : cef_path_key_t -> option string.

Let root : string := GetResourcesPath kPathSep CefGetPath.

(** The guarded [substr] of [GetInternalPath] never throws, and strips
    the prefix exactly when the path starts with it. *)
Lemma strip_in_range (resources_path path : string) :
  (if negb (StdString.empty resources_path)
      && is_pos0 (StdString.find path resources_path)
   then StdString.substr path (String.length resources_path)
   else Some path)
  = Some (spec_strip_prefix resources_path path).
Proof.
  unfold spec_strip_prefix.
  rewrite find_pos0, prefix_match_here.
  destruct (StdString.match_here resources_path path) eqn:E.
  - apply match_here_iff in E as [rest ->].
    rewrite substring_app.
    destruct (StdString.empty resources_path) eqn:Em; simpl.
    + apply empty_true in Em; now subst.
    + unfold StdString.substr.
      rewrite length_app, drop_app.
      now rewrite (proj2 (Nat.leb_le _ _)) by lia.
  - now rewrite andb_false_r.
Qed.

Lemma GetInternalPath_spec (path : string) :
  GetInternalPath os kPathSep CefGetPath path
  = Some (spec_relative_path os root path).
Proof.
  unfold GetInternalPath, spec_relative_path.
  rewrite strip_in_range; simpl.
  now destruct os.
Qed.

Lemma spec_strip_prefix_app (a b : string) :
  spec_strip_prefix a (a ++ b) = b.
Proof.
  unfold spec_strip_prefix.
  rewrite (proj2 (prefix_split a (a ++ b))) by now exists b.
  apply substring_app.
Qed.

Lemma IsInternalExtension_loop_iff (rel : string) (exts : list string) :
  IsInternalExtension_loop rel exts = true
  <-> exists n, In n exts /\ names_extension rel n.
Proof.
  induction exts as [|e exts IH]; simpl.
  - split; [discriminate | intros (n & [] & _)].
  - rewrite find_pos0.
    destruct (String.eqb rel e) eqn:Eq; simpl.
    + apply String.eqb_eq in Eq.
      split; [|reflexivity]; intros _.
      exists e; split; [now left | now left].
    + apply String.eqb_neq in Eq.
      destruct (StdString.match_here (e ++ String slash "") rel) eqn:Em.
      * split; [|reflexivity]; intros _.
        apply match_here_iff in Em as [s ->].
        exists e; split; [now left|]. right; exists s.
        now rewrite append_assoc.
      * rewrite IH; split.
        -- intros (n & Hin & Hn); exists n; split; [now right | assumption].
        -- intros (n & [<-|Hin] & Hn); [|now exists n].
           destruct Hn as [->|[s ->]]; [congruence|].
           exfalso.
           assert (StdString.match_here (e ++ String slash "")
                     (e ++ "/" ++ s) = true); [|congruence].
           apply match_here_iff; exists s. now rewrite append_assoc.
Qed.

Lemma IsInternalExtension_spec (path : string) :
  IsInternalExtension os kPathSep CefGetPath path
  = Some (IsInternalExtension_loop (spec_relative_path os root path)
                                   extensions).
Proof.
  unfold IsInternalExtension. now rewrite GetInternalPath_spec.
Qed.

(** No allowlisted name holds a separator of either kind. *)
Lemma extensions_plain (n : string) :
  In n extensions -> occurs backslash n = false /\ occurs slash n = false.
Proof. intros [<-|[]]; split; reflexivity. Qed.

Lemma first_segment_app (n s : string) :
  occurs slash n = false -> first_segment (n ++ String slash s) = n.
Proof.
  induction n as [|c n IH]; simpl; [reflexivity|].
  intros H; apply orb_false_iff in H as [Hc Hn].
  now rewrite Hc, IH.
Qed.

Lemma first_segment_plain (n : string) :
  occurs slash n = false -> first_segment n = n.
Proof.
  induction n as [|c n IH]; simpl; [reflexivity|].
  intros H; apply orb_false_iff in H as [Hc Hn].
  now rewrite Hc, IH.
Qed.

Lemma spec_relative_path_rooted (n s : string) :
  In n extensions ->
  names_extension (spec_relative_path os root (root ++ n ++ "/" ++ s)) n
  /\ names_extension (spec_relative_path os root (root ++ n)) n.
Proof.
  intros Hin; destruct (extensions_plain n Hin) as [Hb _].
  unfold spec_relative_path; rewrite !spec_strip_prefix_app.
  destruct os; split; try (now left); try (right; now exists s).
  - right; exists (StdString.replace backslash slash s).
    now rewrite !replace_app, (replace_absent _ _ n Hb).
  - left; now apply replace_absent.
Qed.

(** C1, as amended: [IsInternalExtension] answers true exactly when the
    path, once the bundled-resources prefix is stripped (when the path
    starts with it) and, in Windows builds only, every backslash is
    turned into a slash, equals an allowlisted name or begins with that
    name followed by a slash; the allowlist is exactly
    [set_page_color]; a path made of the root, an allowlisted name and
    optionally a slash and any suffix is internal; and a path whose
    first segment is not allowlisted is external. *)
Theorem IsInternalExtension_contract (path : string) :
  extensions = ["set_page_color"]
  /\ (IsInternalExtension os kPathSep CefGetPath path = Some true
      <-> exists n, In n extensions
                    /\ names_extension (spec_relative_path os root path) n)
  /\ (forall n s, In n extensions ->
        IsInternalExtension os kPathSep CefGetPath (root ++ n ++ "/" ++ s)
        = Some true
        /\ IsInternalExtension os kPathSep CefGetPath (root ++ n)
           = Some true)
  /\ (~ In (first_segment (spec_relative_path os root path)) extensions ->
      IsInternalExtension os kPathSep CefGetPath path = Some false).
Proof.
  split; [reflexivity|].
  assert (Hiff : forall p,
             IsInternalExtension os kPathSep CefGetPath p = Some true
             <-> exists n, In n extensions
                           /\ names_extension (spec_relative_path os root p) n).
  { intros p; rewrite IsInternalExtension_spec, <- IsInternalExtension_loop_iff.
    split; congruence. }
  split; [apply Hiff|]. split.
  - intros n s Hin.
    destruct (spec_relative_path_rooted n s Hin) as [H1 H2].
    split; apply Hiff; exists n; auto.
  - intros Hseg.
    rewrite IsInternalExtension_spec.
    destruct (IsInternalExtension_loop _ _) eqn:E; [|reflexivity].
    exfalso; apply Hseg.
    apply IsInternalExtension_loop_iff in E as (n & Hin & Hn).
    destruct (extensions_plain n Hin) as [_ Hs].
    destruct Hn as [->|[s ->]].
    + now rewrite first_segment_plain.
    + change (n ++ "/" ++ s) with (n ++ String slash s).
      now rewrite first_segment_app.
Qed.

End PathResolverFacts.

(** C1 as stated fails in a build that does not define [OS_WIN]: the
    path [set_page_color\x] turns into [set_page_color/x] under the
    claimed normalisation, yet the code leaves the backslash alone and
    classifies the path as external. *)
Lemma IsInternalExtension_claimed_normalisation_fails :
  ~ (IsInternalExtension OS_POSIX slash (fun _ => None) "set_page_color\x"
     = Some true
     <-> exists n, In n extensions
                   /\ names_extension
                        (spec_relative_path_claimed
                           (GetResourcesPath slash (fun _ => None))
                           "set_page_color\x") n).
Proof.
  intros [_ H].
  assert (E : IsInternalExtension OS_POSIX slash (fun _ => None)
                                  "set_page_color\x" = Some false)
    by reflexivity.
  rewrite E in H.
  assert (Some false = Some true); [|discriminate].
  apply H. exists "set_page_color"; split; [now left|].
  right; exists "x"; reflexivity.
Qed.

Lemma IsInternalExtension_contract_witness :
  IsInternalExtension OS_WIN backslash
    (fun _ => Some "C:\app\Resources")
    "C:\app\Resources\set_page_color\popup.html" = Some true
  /\ IsInternalExtension OS_POSIX slash (fun _ => Some "/opt/app")
       "/home/user/ext" = Some false.
Proof.
  split.
  - apply (proj1 (proj2 (IsInternalExtension_contract OS_WIN backslash
             (fun _ => Some "C:\app\Resources")
             "C:\app\Resources\set_page_color\popup.html")));
      simpl.
    exists "set_page_color"; split; [now left|].
    right; exists "popup.html"; reflexivity.
  - apply (proj2 (proj2 (proj2 (IsInternalExtension_contract OS_POSIX slash
             (fun _ => Some "/opt/app") "/home/user/ext")))).
    simpl. intros [H|[]]; discriminate.
Defined.

Section ResourcePathFacts.

Variable os : platform.
Variable kPathSep : ascii.
Variable CefGetPath : cef_path_key_t -> option string.

Let root : string := GetResourcesPath kPathSep CefGetPath.

(** What the two resource path functions return, for the lemmas
    below. *)
Lemma resource_paths_spec (path : string) (internal : option bool) :
  GetInternalExtensionResourcePath os kPathSep CefGetPath path
  = Some ("extensions/" ++ spec_relative_path os root path)
  /\ exists is_internal,
       IsInternalExtension os kPathSep CefGetPath path = Some is_internal
       /\ GetExtensionResourcePath os kPathSep CefGetPath path internal
          = Some (if is_internal
                  then "extensions/" ++ spec_relative_path os root path
                  else path,
                  match internal with
                  | Some _ => Some is_internal
                  | None => None
                  end).
Proof.
  assert (H : GetInternalExtensionResourcePath os kPathSep CefGetPath path
              = Some ("extensions/" ++ spec_relative_path os root path)).
  { unfold GetInternalExtensionResourcePath.
    now rewrite GetInternalPath_spec. }
  split; [exact H|].
  pose proof (IsInternalExtension_spec os kPathSep CefGetPath path) as Hb.
  fold root in Hb.
  set (b := IsInternalExtension_loop _ _) in Hb.
  exists b; split; [exact Hb|].
  unfold GetExtensionResourcePath.
  rewrite Hb; cbn [obind].
  destruct b; [|reflexivity].
  now rewrite H.
Qed.

Lemma get_replace (old new : ascii) (s : string) (i : nat) :
  String.get i (StdString.replace old new s)
  = option_map (fun c => if Ascii.eqb c old then new else c)
               (String.get i s).
Proof.
  revert i; induction s as [|c s IH]; intros [|i]; simpl; auto.
Qed.

(** C6, as amended: [GetInternalExtensionResourcePath] returns
    [extensions/] followed by the relative path, whether or not the
    path is internal; the relative path is the path without the
    resources prefix, in which a Windows build has turned every
    backslash into a slash and any other build has changed no
    character; and [GetExtensionResourcePath] returns that internal
    resource path when [IsInternalExtension] holds and the path itself
    otherwise, writing the classification to the cell its [bool*]
    points to, if any. *)
Theorem resource_path_contract (path : string) (internal : option bool) :
  GetInternalExtensionResourcePath os kPathSep CefGetPath path
  = Some ("extensions/" ++ spec_relative_path os root path)
  /\ (forall i,
        String.get i (spec_relative_path os root path)
        = option_map
            (fun c =>
               match os with
               | OS_WIN => if Ascii.eqb c "\"%char then "/"%char else c
               | OS_POSIX => c
               end)
            (String.get i (spec_strip_prefix root path)))
  /\ exists is_internal,
       IsInternalExtension os kPathSep CefGetPath path = Some is_internal
       /\ GetExtensionResourcePath os kPathSep CefGetPath path internal
          = Some (if is_internal
                  then "extensions/" ++ spec_relative_path os root path
                  else path,
                  match internal with
                  | Some _ => Some is_internal
                  | None => None
                  end).
Proof.
  destruct (resource_paths_spec path internal) as [H Hget].
  split; [exact H|]. split; [|exact Hget].
  intros i. unfold spec_relative_path. destruct os.
  - apply get_replace.
  - now destruct (String.get i (spec_strip_prefix root path)).
Qed.

Lemma root_shape :
  root = "" \/ exists dir, root = dir ++ String kPathSep "".
Proof.
  unfold root, GetResourcesPath.
  destruct (CefGetPath PK_DIR_RESOURCES) as [dir|]; [|now left].
  destruct (StdString.empty dir); simpl; [now left|].
  right; now exists dir.
Qed.

Lemma spec_strip_prefix_empty (path : string) :
  spec_strip_prefix "" path = path.
Proof.
  unfold spec_strip_prefix.
  replace (String.prefix "" path) with true by now destruct path.
  simpl. rewrite Nat.sub_0_r. apply substring_all.
Qed.

(** The result of [GetInternalPath] is already normalised for the
    build. *)
Lemma normalise_again (x : string) :
  match os with
  | OS_WIN =>
      StdString.replace backslash slash
        (spec_relative_path os root x)
  | OS_POSIX => spec_relative_path os root x
  end = spec_relative_path os root x.
Proof.
  unfold spec_relative_path; destruct os; [|reflexivity].
  apply replace_absent, replace_clears; discriminate.
Qed.

Lemma strip_extensions_prefix_app (r : string) :
  strip_extensions_prefix ("extensions/" ++ r) = r.
Proof.
  unfold strip_extensions_prefix.
  rewrite (proj2 (prefix_split "extensions/" ("extensions/" ++ r)))
    by now exists r.
  apply (substring_app "extensions/" r).
Qed.

Lemma length_replace (old new : ascii) (s : string) :
  String.length (StdString.replace old new s) = String.length s.
Proof. induction s; simpl; congruence. Qed.

(** C7, as amended: applying [GetInternalPath] to its own result
    returns that result exactly when the result does not begin with the
    resources prefix again, that is when there is no resources prefix
    or the first result does not start with it; this is so for every
    path in a Windows build whose separator is the backslash.  The same
    holds of [GetInternalExtensionResourcePath] once its leading
    [extensions/] is stripped. *)
Theorem GetInternalPath_idempotent_unless_reprefixed (p r : string) :
  GetInternalPath os kPathSep CefGetPath p = Some r ->
  (GetInternalPath os kPathSep CefGetPath r = Some r
   <-> root = "" \/ String.prefix root r = false)
  /\ (os = OS_WIN /\ kPathSep = backslash ->
      GetInternalPath os kPathSep CefGetPath r = Some r)
  /\ forall out,
       GetInternalExtensionResourcePath os kPathSep CefGetPath p = Some out ->
       (GetInternalExtensionResourcePath os kPathSep CefGetPath
          (strip_extensions_prefix out) = Some out
        <-> GetInternalPath os kPathSep CefGetPath r = Some r).
Proof.
  pose proof (GetInternalPath_spec os kPathSep CefGetPath) as Hspec.
  fold root in Hspec.
  rewrite Hspec. intros Hr.
  injection Hr as Hr.
  assert (Hnorm : forall x, spec_strip_prefix root r = x ->
                            spec_relative_path os root r
                            = match os with
                              | OS_WIN => StdString.replace backslash slash x
                              | OS_POSIX => x
                              end).
  { intros x <-. reflexivity. }
  assert (Hkeep : spec_strip_prefix root r = r ->
                  GetInternalPath os kPathSep CefGetPath r = Some r).
  { intros Hstrip. rewrite Hspec, (Hnorm r Hstrip); f_equal.
    pose proof (normalise_again p) as Hn. rewrite Hr in Hn. exact Hn. }
  assert (Hno : String.prefix root r = false ->
                spec_strip_prefix root r = r).
  { intros E; unfold spec_strip_prefix; now rewrite E. }
  assert (Hiff : GetInternalPath os kPathSep CefGetPath r = Some r
                 <-> root = "" \/ String.prefix root r = false).
  { split.
    - intros Hfix.
      destruct (String.prefix root r) eqn:P; [left|now right].
      apply prefix_split in P as [rest P].
      rewrite Hspec in Hfix. injection Hfix as Hfix.
      apply (f_equal String.length) in Hfix.
      rewrite (Hnorm rest) in Hfix
        by (rewrite P; apply spec_strip_prefix_app).
      assert (Hlen : String.length rest = String.length r).
      { rewrite <- Hfix. destruct os; [apply eq_sym, length_replace|reflexivity]. }
      rewrite P, length_app in Hlen.
      apply length_zero_empty; lia.
    - intros [E|E]; apply Hkeep.
      + rewrite E; apply spec_strip_prefix_empty.
      + now apply Hno. }
  split; [exact Hiff|]. split.
  - intros [Eos Esep]. apply Hiff.
    destruct root_shape as [E|[dir E]]; [now left|right].
    destruct (String.prefix root r) eqn:P; [|reflexivity].
    apply prefix_split in P as [rest P].
    assert (Hclean : occurs backslash r = false).
    { rewrite <- Hr; unfold spec_relative_path; rewrite Eos.
      apply replace_clears; discriminate. }
    rewrite P, E, Esep, !occurs_app in Hclean; simpl in Hclean.
    now rewrite orb_true_r in Hclean.
  - intros out.
    unfold GetInternalExtensionResourcePath.
    rewrite !Hspec, Hr; cbn [obind].
    intros E.
    assert (Eout : out = ("extensions/" ++ r)%string) by congruence.
    rewrite Eout, strip_extensions_prefix_app.
    split; intros H.
    + injection H as H. now rewrite H.
    + injection H as H. now rewrite H.
Qed.

Lemma length_spec_strip_prefix (a path : string) :
  String.length (spec_strip_prefix a path) <= String.length path.
Proof.
  unfold spec_strip_prefix.
  destruct (String.prefix a path) eqn:P; [|lia].
  apply prefix_split in P as [rest ->].
  rewrite substring_app, length_app; lia.
Qed.

Lemma length_spec_relative_path (path : string) :
  String.length (spec_relative_path os root path) <= String.length path.
Proof.
  unfold spec_relative_path; destruct os;
    rewrite ?length_replace; apply length_spec_strip_prefix.
Qed.

Lemma first_segment_split (s : string) :
  s = first_segment s \/ exists t, s = first_segment s ++ "/" ++ t.
Proof.
  induction s as [|c s IH]; simpl; [now left|].
  destruct (Ascii.eqb c slash) eqn:E.
  - apply Ascii.eqb_eq in E; subst c. right; now exists s.
  - destruct IH as [IH|[t IH]].
    + left. f_equal. exact IH.
    + right; exists t. simpl. f_equal. exact IH.
Qed.

(** A path is internal exactly when the first segment of its relative
    path is an allowlisted name. *)
Lemma internal_by_first_segment (path : string) :
  IsInternalExtension_loop (spec_relative_path os root path) extensions
  = true
  <-> In (first_segment (spec_relative_path os root path)) extensions.
Proof.
  rewrite IsInternalExtension_loop_iff. split.
  - intros (n & Hin & Hn).
    destruct (extensions_plain n Hin) as [_ Hs].
    destruct Hn as [->|[s ->]].
    + now rewrite first_segment_plain.
    + change (n ++ "/" ++ s) with (n ++ String slash s).
      now rewrite first_segment_app.
  - intros Hin. eexists; split; [exact Hin|].
    destruct (first_segment_split (spec_relative_path os root path))
      as [H|[t H]]; [now left | right; now exists t].
Qed.

(** C8, as amended: the three path functions answer on every input
    (the one operation that can throw, [substr], is always called in
    range), the string [GetExtensionResourcePath] returns does not
    depend on the cell behind its [bool*], and the empty path, like
    every path too short to hold an allowlisted name, is classified as
    external.  A path, malformed or not, is external exactly when the
    first segment of its relative path is not an allowlisted name: what
    follows that segment is never looked at. *)
Theorem path_functions_total (path : string) (internal : option bool) :
  (exists b, IsInternalExtension os kPathSep CefGetPath path = Some b)
  /\ (exists r,
        GetInternalExtensionResourcePath os kPathSep CefGetPath path = Some r)
  /\ (exists r b,
        IsInternalExtension os kPathSep CefGetPath path = Some b
        /\ forall cell,
             GetExtensionResourcePath os kPathSep CefGetPath path cell
             = Some (r, match cell with
                        | Some _ => Some b
                        | None => None
                        end))
  /\ IsInternalExtension os kPathSep CefGetPath "" = Some false
  /\ GetExtensionResourcePath os kPathSep CefGetPath "" internal
     = Some ("", match internal with
                 | Some _ => Some false
                 | None => None
                 end)
  /\ (String.length path < 14 ->
      IsInternalExtension os kPathSep CefGetPath path = Some false)
  /\ (IsInternalExtension os kPathSep CefGetPath path = Some false
      <-> ~ In (first_segment (spec_relative_path os root path)) extensions)
  /\ (IsInternalExtension os kPathSep CefGetPath path = Some true
      <-> In (first_segment (spec_relative_path os root path)) extensions).
Proof.
  assert (Hshort : forall p, String.length p < 14 ->
            IsInternalExtension os kPathSep CefGetPath p = Some false).
  { intros p Hlen. rewrite IsInternalExtension_spec.
    destruct (IsInternalExtension_loop _ _) eqn:E; [|reflexivity].
    apply IsInternalExtension_loop_iff in E as (n & [<-|[]] & Hn).
    pose proof (length_spec_relative_path p) as Hle; unfold root in Hle.
    destruct Hn as [Hn|[s Hn]]; rewrite Hn in Hle;
      rewrite ?length_app in Hle; simpl in Hle; lia. }
  pose proof (IsInternalExtension_spec os kPathSep CefGetPath path) as Hspec.
  fold root in Hspec.
  pose proof (internal_by_first_segment path) as Hseg.
  split; [eexists; apply IsInternalExtension_spec|].
  split; [destruct (resource_paths_spec path None) as [H _]; eauto|].
  split.
  { destruct (resource_paths_spec path None) as [_ (b & Hb & _)].
    exists (if b then "extensions/" ++ spec_relative_path os root path
            else path), b.
    split; [exact Hb|]. intros cell.
    destruct (resource_paths_spec path cell) as [_ (b' & Hb' & H)].
    assert (b' = b) by congruence. subst b'. exact H. }
  split; [apply Hshort; simpl; lia|].
  split.
  { destruct (resource_paths_spec "" internal) as [_ (b & Hb & H)].
    rewrite Hshort in Hb by (simpl; lia). injection Hb as <-. exact H. }
  split; [apply Hshort|].
  rewrite Hspec.
  destruct (IsInternalExtension_loop (spec_relative_path os root path)
                                     extensions) eqn:E.
  - split; split; try discriminate; try reflexivity.
    + intros Hn. exfalso. apply Hn, Hseg. reflexivity.
    + intros _. now apply Hseg.
  - split; split; try discriminate; try reflexivity.
    + intros _ Hin. apply Hseg in Hin. discriminate.
    + intros Hin. apply Hseg in Hin. discriminate.
Qed.

End ResourcePathFacts.

(** C7 as stated fails where the separator is the slash: a path that
    carries the resources prefix twice loses it once per call. *)
Lemma GetInternalPath_idempotence_fails :
  obind (GetInternalPath OS_POSIX slash (fun _ => Some "/res") "/res//res/x")
        (GetInternalPath OS_POSIX slash (fun _ => Some "/res"))
  <> GetInternalPath OS_POSIX slash (fun _ => Some "/res") "/res//res/x".
Proof. discriminate. Qed.

Lemma GetInternalPath_idempotent_witness :
  GetInternalPath OS_WIN backslash (fun _ => Some "C:\res")
                  "set_page_color/icon.png"
  = Some "set_page_color/icon.png"
  /\ GetInternalPath OS_POSIX slash (fun _ => Some "/res") "a/b" = Some "a/b".
Proof.
  split.
  - apply (proj1 (proj2 (GetInternalPath_idempotent_unless_reprefixed
                           OS_WIN backslash (fun _ => Some "C:\res")
                           "C:\res\set_page_color\icon.png"
                           "set_page_color/icon.png" eq_refl))).
    split; reflexivity.
  - apply (proj2 (proj1 (GetInternalPath_idempotent_unless_reprefixed
                           OS_POSIX slash (fun _ => Some "/res")
                           "/res/a/b" "a/b" eq_refl))).
    right; reflexivity.
Defined.

Lemma path_functions_total_witness :
  IsInternalExtension OS_POSIX slash (fun _ => Some "/res") "/res/x"
  = Some false
  /\ IsInternalExtension OS_POSIX slash (fun _ => Some "/res")
                         "/res/set_page_colour/popup.html" = Some false.
Proof.
  split.
  - apply (proj1 (proj2 (proj2 (proj2 (proj2 (proj2
             (path_functions_total OS_POSIX slash (fun _ => Some "/res")
                                   "/res/x" None))))))).
    simpl; lia.
  - apply (proj1 (proj2 (proj2 (proj2 (proj2 (proj2 (proj2
             (path_functions_total OS_POSIX slash (fun _ => Some "/res")
                                   "/res/set_page_colour/popup.html"
                                   None)))))))).
    simpl. intros [H|[]]; discriminate.
Defined.

(** C8 as stated fails on a malformed path whose first segment is an
    allowlisted name: the empty segment of [set_page_color//] comes
    behind that name, where the code does not look. *)
Lemma malformed_path_classified_internal :
  ~ (spec_malformed "set_page_color//" = true ->
     IsInternalExtension OS_POSIX slash (fun _ => None) "set_page_color//"
     = Some false).
Proof. intros H. specialize (H eq_refl). discriminate. Qed.

(** C6 as stated fails in a build that does not define [OS_WIN]: the
    resource path of [set_page_color\x] keeps its backslash. *)
Lemma resource_path_claimed_normalisation_fails :
  GetInternalExtensionResourcePath OS_POSIX slash (fun _ => None)
                                   "set_page_color\x"
  <> Some ("extensions/"
             ++ spec_relative_path_claimed
                  (GetResourcesPath slash (fun _ => None))
                  "set_page_color\x").
Proof. intros H. vm_compute in H. discriminate. Qed.

Lemma resource_path_contract_witness :
  GetInternalExtensionResourcePath
    OS_WIN backslash (fun _ => Some "C:\res")
    "C:\res\set_page_color\img\a.png"
  = Some "extensions/set_page_color/img/a.png"
  /\ String.get 14 (spec_relative_path
                      OS_WIN (GetResourcesPath backslash
                                               (fun _ => Some "C:\res"))
                      "C:\res\set_page_color\img\a.png")
     = Some "/"%char
  /\ GetInternalExtensionResourcePath
       OS_POSIX slash (fun _ => Some "/res") "/res/set_page_color\img"
     = Some "extensions/set_page_color\img".
Proof.
  split; [|split].
  - rewrite (proj1 (resource_path_contract
                      OS_WIN backslash (fun _ => Some "C:\res")
                      "C:\res\set_page_color\img\a.png" None)).
    reflexivity.
  - rewrite (proj1 (proj2 (resource_path_contract
                             OS_WIN backslash (fun _ => Some "C:\res")
                             "C:\res\set_page_color\img\a.png" None)) 14).
    reflexivity.
  - rewrite (proj1 (resource_path_contract
                      OS_POSIX slash (fun _ => Some "/res")
                      "/res/set_page_color\img" None)).
    reflexivity.
Defined.

(** ** The manifest accessors *)

Lemma empty_false (s : string) : StdString.empty s = false <-> s <> "".
Proof. destruct s; simpl; split; congruence. Qed.

(** C4: when the manifest holds a [browser_action] dictionary with a
    non-empty [default_popup] string, [GetExtensionURL] is the origin
    [chrome-extension://<id>/] followed by that string; for the
    manifest [{"browser_action":{"default_popup":"popup.html"}}] and
    the identifier [abc123] it is
    [chrome-extension://abc123/popup.html]. *)
Theorem GetExtensionURL_popup :
  (forall extension browser_action default_popup,
      dictionary_get (GetManifest extension) "browser_action"
      = Some (V_DICTIONARY browser_action) ->
      dictionary_get browser_action "default_popup"
      = Some (V_STRING default_popup) ->
      default_popup <> "" ->
      GetExtensionURL extension
      = GetExtensionOrigin (GetIdentifier extension) ++ default_popup)
  /\ (forall extension_id,
        GetExtensionOrigin extension_id
        = "chrome-extension://" ++ extension_id ++ "/")
  /\ (forall path,
        GetExtensionURL
          {| GetIdentifier := "abc123";
             GetPath := path;
             GetManifest :=
               [("browser_action",
                 V_DICTIONARY [("default_popup", V_STRING "popup.html")])] |}
        = "chrome-extension://abc123/popup.html").
Proof.
  split; [|split; reflexivity].
  intros extension browser_action default_popup Hba Hpopup Hne.
  unfold GetExtensionURL, GetDictionary, GetString.
  rewrite Hba; simpl. rewrite Hpopup.
  now rewrite (proj2 (empty_false default_popup) Hne).
Qed.

Lemma GetExtensionURL_popup_witness :
  GetExtensionURL
    {| GetIdentifier := "mnop";
       GetPath := "set_page_color";
       GetManifest :=
         [("name", V_STRING "Set Page Color");
          ("browser_action",
           V_DICTIONARY [("default_icon", V_STRING "icon.png");
                         ("default_popup", V_STRING "popup.html")])] |}
  = "chrome-extension://mnop/popup.html".
Proof.
  apply (proj1 GetExtensionURL_popup
           {| GetIdentifier := "mnop";
              GetPath := "set_page_color";
              GetManifest :=
                [("name", V_STRING "Set Page Color");
                 ("browser_action",
                  V_DICTIONARY [("default_icon", V_STRING "icon.png");
                                ("default_popup", V_STRING "popup.html")])] |}
           [("default_icon", V_STRING "icon.png");
            ("default_popup", V_STRING "popup.html")]
           "popup.html").
  - reflexivity.
  - reflexivity.
  - discriminate.
Defined.

Section ManifestAccessorFacts.

Variable os : platform.
Variable kPathSep : ascii.
Variable CefGetPath : cef_path_key_t -> option string.
Variable JoinPath : string -> string -> string.

(** C5: for the empty manifest, for a manifest without a
    [browser_action] dictionary, and when [default_popup] (for the URL)
    or [default_icon] (for the icon) is missing or empty,
    [GetExtensionURL] and [GetExtensionIconPath] return the empty
    string; no error arises and the cell behind [bool*] is left as it
    was. *)
Theorem absent_fields_yield_empty (extension : CefExtension)
        (internal : option bool) :
  (GetManifest extension = []
   \/ GetDictionary (GetManifest extension) "browser_action" = None ->
   GetExtensionURL extension = ""
   /\ GetExtensionIconPath os kPathSep CefGetPath JoinPath extension internal
      = Some ("", internal))
  /\ (forall browser_action,
        GetDictionary (GetManifest extension) "browser_action"
        = Some browser_action ->
        (GetString browser_action "default_popup" = "" ->
         GetExtensionURL extension = "")
        /\ (GetString browser_action "default_icon" = "" ->
            GetExtensionIconPath os kPathSep CefGetPath JoinPath
                                 extension internal
            = Some ("", internal))).
Proof.
  unfold GetExtensionURL, GetExtensionIconPath. split.
  - intros H.
    assert (E : GetDictionary (GetManifest extension) "browser_action"
                = None).
    { destruct H as [H|H]; [now rewrite H | exact H]. }
    now rewrite E.
  - intros browser_action E; rewrite E.
    split; intros Hs; now rewrite Hs.
Qed.

End ManifestAccessorFacts.

Lemma absent_fields_yield_empty_witness :
  GetExtensionURL
    {| GetIdentifier := "abc123"; GetPath := "ext"; GetManifest := [] |} = ""
  /\ GetExtensionIconPath OS_POSIX slash (fun _ => None)
       (fun a b => a ++ "/" ++ b)
       {| GetIdentifier := "abc123"; GetPath := "ext";
          GetManifest := [("browser_action", V_DICTIONARY [])] |}
       (Some true)
     = Some ("", Some true).
Proof.
  split.
  - apply (proj1 (absent_fields_yield_empty OS_POSIX slash (fun _ => None)
                    (fun a b => a ++ "/" ++ b)
                    {| GetIdentifier := "abc123"; GetPath := "ext";
                       GetManifest := [] |} None)).
    left; reflexivity.
  - apply (proj2 (absent_fields_yield_empty OS_POSIX slash (fun _ => None)
                    (fun a b => a ++ "/" ++ b)
                    {| GetIdentifier := "abc123"; GetPath := "ext";
                       GetManifest := [("browser_action", V_DICTIONARY [])] |}
                    (Some true)) []).
    + reflexivity.
    + reflexivity.
Defined.

(** ** Traces *)

Open Scope list_scope.

Lemma deliveries_app (a b : list Event) :
  deliveries (a ++ b) = deliveries a ++ deliveries b.
Proof.
  induction a as [|e a IH]; simpl; [reflexivity|].
  destruct e; simpl; congruence.
Qed.

Lemma error_logs_app (a b : list Event) :
  error_logs (a ++ b) = error_logs a ++ error_logs b.
Proof.
  induction a as [|e a IH]; simpl; [reflexivity|].
  destruct e; simpl; congruence.
Qed.

Lemma resource_reads_app (a b : list Event) :
  resource_reads (a ++ b) = resource_reads a ++ resource_reads b.
Proof.
  induction a as [|e a IH]; simpl; [reflexivity|].
  destruct e; simpl; congruence.
Qed.

Lemma engine_loads_app (a b : list Event) :
  engine_loads (a ++ b) = engine_loads a ++ engine_loads b.
Proof.
  induction a as [|e a IH]; simpl; [reflexivity|].
  destruct e; simpl; congruence.
Qed.

Lemma file_posts_app (a b : list Event) :
  file_posts (a ++ b) = file_posts a ++ file_posts b.
Proof.
  induction a as [|e a IH]; simpl; [reflexivity|].
  destruct e as [| ? target ? | | | | |]; simpl; try congruence.
  destruct target; simpl; congruence.
Qed.

Lemma on_UI_only_app (a b : list Event) :
  on_UI_only a -> on_UI_only b -> on_UI_only (a ++ b)%list.
Proof.
  unfold on_UI_only; intros Ha Hb on callback manifest.
  rewrite deliveries_app, in_app_iff. intros [H|H]; eauto.
Qed.

Lemma on_UI_only_quiet (tr : list Event) :
  deliveries tr = [] -> on_UI_only tr.
Proof. unfold on_UI_only; intros -> ? ? ? []. Qed.

Lemma thread_eqb_eq (a b : cef_thread_id_t) :
  thread_eqb a b = true <-> a = b.
Proof. destruct a, b; simpl; split; congruence. Qed.

Lemma thread_eqb_refl (a : cef_thread_id_t) : thread_eqb a a = true.
Proof. now destruct a. Qed.

Lemma thread_eqb_neq (a b : cef_thread_id_t) :
  thread_eqb a b = false <-> a <> b.
Proof. destruct a, b; simpl; split; congruence. Qed.

(** ** The monad *)

Section TraceExtension.

Variable good : list Event -> Prop.
Hypothesis good_nil : good [].
Hypothesis good_app : forall a b, good a -> good b -> good (a ++ b)%list.

Lemma extends_ret {A : Type} (a : A) : extends_trace good (ret a).
Proof. intros w; exists []; simpl. now rewrite app_nil_r. Qed.

Lemma extends_bind {A B : Type} (m : M A) (f : A -> M B) :
  extends_trace good m -> (forall a, extends_trace good (f a)) ->
  extends_trace good (bind m f).
Proof.
  intros Hm Hf w. unfold bind.
  destruct (Hm w) as (added & E & Hg).
  destruct (m w) as [a w'|what w']; simpl in *.
  - destruct (Hf a w') as (added' & E' & Hg').
    exists (added ++ added'). rewrite E', E, app_assoc. auto.
  - now exists added.
Qed.

Lemma extends_emit (e : Event) : good [e] -> extends_trace good (emit e).
Proof. intros H w; now exists [e]. Qed.

Lemma extends_DCHECK (condition : bool) : extends_trace good (DCHECK condition).
Proof.
  intros w; exists []; unfold DCHECK.
  destruct condition; simpl; now rewrite app_nil_r.
Qed.

Lemma extends_unhandled {A : Type} (r : option A) :
  extends_trace good (unhandled r).
Proof.
  intros w; exists []; unfold unhandled.
  destruct r; simpl; now rewrite app_nil_r.
Qed.

Lemma extends_CefPostTask (current target : cef_thread_id_t) (task : Closure) :
  good [Ev_CefPostTask current target task] ->
  extends_trace good (CefPostTask current target task).
Proof. intros H w; now eexists. Qed.

End TraceExtension.

(** ** The manifest loader and the tasks it posts *)

Section LoaderFacts.

Variable os : platform.
Variable kPathSep : ascii.
Variable CefGetPath : cef_path_key_t -> option string.
Variable JoinPath : string -> string -> string.
Variable LoadBinaryResource : string -> bool * string.
Variable GetResourceDir : option string.
Variable CefParseJSONAndReturnError : string -> option CefValue * string.

Local Abbreviation IsInternalExtension' :=
  (IsInternalExtension os kPathSep CefGetPath).
Local Abbreviation GetInternalManifest' :=
  (GetInternalManifest os kPathSep CefGetPath JoinPath LoadBinaryResource
                       CefParseJSONAndReturnError).
Local Abbreviation LoadExtension' :=
  (LoadExtension os kPathSep CefGetPath JoinPath LoadBinaryResource
                 CefParseJSONAndReturnError).
Local Abbreviation AddInternalExtensionToResourceManager' :=
  (AddInternalExtensionToResourceManager os kPathSep CefGetPath
                                         GetResourceDir).
Local Abbreviation run_closure' :=
  (run_closure os kPathSep CefGetPath JoinPath LoadBinaryResource
               GetResourceDir CefParseJSONAndReturnError).
Local Abbreviation step' :=
  (step os kPathSep CefGetPath JoinPath LoadBinaryResource GetResourceDir
        CefParseJSONAndReturnError).
Local Abbreviation steps' :=
  (steps os kPathSep CefGetPath JoinPath LoadBinaryResource GetResourceDir
         CefParseJSONAndReturnError).

(** On the UI thread the callback runs inline: it is recorded and the
    engine is asked to load the extension with the manifest. *)
Lemma RunManifestCallback_on_UI
      (rc : CefRequestContext) (path : string) (handler : CefExtensionHandler)
      (manifest : option CefDictionaryValue) (w : World) :
  RunManifestCallback TID_UI (Bind_LoadExtensionWithManifest rc path handler)
                      manifest w
  = Done tt
      {| pending := pending w;
         trace := trace w
                  ++ [Ev_CallbackRun
                        TID_UI (Bind_LoadExtensionWithManifest rc path handler)
                        manifest;
                      Ev_LoadExtension TID_UI rc path manifest handler] |}.
Proof.
  unfold RunManifestCallback, ManifestCallback_Run, LoadExtensionWithManifest,
    CEF_REQUIRE_UI_THREAD, bind, emit, DCHECK; simpl.
  now rewrite <- app_assoc.
Qed.

(** Anywhere else it reposts itself to the UI thread and does nothing
    more. *)
Lemma RunManifestCallback_off_UI
      (t : cef_thread_id_t) (callback : ManifestCallback)
      (manifest : option CefDictionaryValue) (w : World) :
  t <> TID_UI ->
  RunManifestCallback t callback manifest w
  = Done tt
      {| pending := pending w
                    ++ [(TID_UI, Bind_RunManifestCallback callback manifest)];
         trace := trace w
                  ++ [Ev_CefPostTask
                        t TID_UI
                        (Bind_RunManifestCallback callback manifest)] |}.
Proof.
  intros Ht. unfold RunManifestCallback, CefCurrentlyOn.
  now rewrite (proj2 (thread_eqb_neq t TID_UI) Ht).
Qed.

Lemma extends_RunManifestCallback
      (t : cef_thread_id_t) (callback : ManifestCallback)
      (manifest : option CefDictionaryValue) :
  extends_trace on_UI_only (RunManifestCallback t callback manifest).
Proof.
  intros w. destruct (thread_eqb t TID_UI) eqn:E.
  - apply thread_eqb_eq in E; subst t.
    destruct callback as [rc path handler].
    rewrite RunManifestCallback_on_UI; simpl.
    eexists; split; [reflexivity|].
    intros on cb m [H|[]]; congruence.
  - apply thread_eqb_neq in E.
    rewrite RunManifestCallback_off_UI by assumption; simpl.
    eexists; split; [reflexivity|].
    now apply on_UI_only_quiet.
Qed.

Lemma extends_GetInternalManifest
      (t : cef_thread_id_t) (path : string) (callback : ManifestCallback) :
  extends_trace on_UI_only (GetInternalManifest' t path callback).
Proof.
  pose proof on_UI_only_app as Happ.
  assert (Hnil : on_UI_only []) by now apply on_UI_only_quiet.
  unfold GetInternalManifest.
  destruct (negb (CefCurrentlyOn t TID_FILE)).
  { apply extends_CefPostTask. now apply on_UI_only_quiet. }
  apply extends_bind; auto using extends_unhandled. intros manifest_path.
  apply extends_bind; auto.
  { apply extends_emit. now apply on_UI_only_quiet. }
  intros _.
  destruct (LoadBinaryResource _) as [loaded contents].
  destruct (negb loaded || StdString.empty contents).
  { apply extends_bind; auto using extends_RunManifestCallback.
    apply extends_emit. now apply on_UI_only_quiet. }
  destruct (CefParseJSONAndReturnError contents) as [value error_msg].
  destruct (match value with Some _ => _ | None => _ end);
    auto using extends_RunManifestCallback.
  apply extends_bind; auto using extends_RunManifestCallback.
  apply extends_emit. now apply on_UI_only_quiet.
Qed.

Lemma extends_LoadExtension
      (t : cef_thread_id_t) (rc : CefRequestContext) (path : string)
      (handler : CefExtensionHandler) :
  extends_trace on_UI_only (LoadExtension' t rc path handler).
Proof.
  pose proof on_UI_only_app as Happ.
  assert (Hnil : on_UI_only []) by now apply on_UI_only_quiet.
  unfold LoadExtension.
  destruct (negb (CefCurrentlyOn t TID_UI)).
  { apply extends_CefPostTask. now apply on_UI_only_quiet. }
  apply extends_bind; auto using extends_unhandled. intros [|].
  - apply extends_GetInternalManifest.
  - apply extends_emit. now apply on_UI_only_quiet.
Qed.

Lemma extends_AddInternalExtensionToResourceManager
      (t : cef_thread_id_t) (extension : CefExtension)
      (rm : CefResourceManager) :
  extends_trace on_UI_only
                (AddInternalExtensionToResourceManager' t extension rm).
Proof.
  pose proof on_UI_only_app as Happ.
  assert (Hnil : on_UI_only []) by now apply on_UI_only_quiet.
  unfold AddInternalExtensionToResourceManager.
  apply extends_bind; auto using extends_unhandled. intros is_internal.
  apply extends_bind; auto using extends_DCHECK. intros _.
  destruct (negb (CefCurrentlyOn t TID_IO)).
  { apply extends_CefPostTask. now apply on_UI_only_quiet. }
  apply extends_bind; auto using extends_unhandled. intros resource_path.
  destruct os.
  - apply extends_emit. now apply on_UI_only_quiet.
  - destruct GetResourceDir; [|now apply extends_ret].
    apply extends_emit. now apply on_UI_only_quiet.
Qed.

(** Whatever task a thread runs, the manifests it hands over are handed
    over on the UI thread. *)
Lemma extends_run_closure (t : cef_thread_id_t) (task : Closure) :
  extends_trace on_UI_only (run_closure' t task).
Proof.
  destruct task; simpl.
  - apply extends_RunManifestCallback.
  - apply extends_GetInternalManifest.
  - apply extends_LoadExtension.
  - apply extends_AddInternalExtensionToResourceManager.
Qed.

Lemma step_on_UI_only (p q : Process) :
  step' p q ->
  on_UI_only (trace (world_of p)) -> on_UI_only (trace (world_of q)).
Proof.
  intros [w t task rest Hd] Hp; simpl in Hp.
  destruct (extends_run_closure t task
              {| pending := rest; trace := trace w |}) as (added & E & Hg).
  rewrite E; simpl. now apply on_UI_only_app.
Qed.

Lemma steps_on_UI_only (p q : Process) :
  steps' p q ->
  on_UI_only (trace (world_of p)) -> on_UI_only (trace (world_of q)).
Proof.
  induction 1 as [p|p q r Hpq Hqr IH]; [auto|].
  intros Hp; apply IH. eapply step_on_UI_only; eauto.
Qed.

(** A crashed process runs nothing more, and neither does one with no
    task left. *)
Lemma step_from_crashed (what : string) (w : World) (q : Process) :
  ~ step' (Crashed what w) q.
Proof. intros H; inversion H. Qed.

Lemma step_from_idle (w : World) (q : Process) :
  pending w = [] -> ~ step' (Alive w) q.
Proof.
  intros E H; inversion H as [w' t task rest Hd]; subst.
  rewrite E in Hd; discriminate.
Qed.

(** With a single task waiting, the only step is its thread running
    it. *)
Lemma step_single (t : cef_thread_id_t) (task : Closure) (tr : list Event)
      (q : Process) :
  step' (Alive {| pending := [(t, task)]; trace := tr |}) q ->
  q = after (run_closure' t task {| pending := []; trace := tr |}).
Proof.
  intros H; inversion H as [w' t' task' rest Hd]; subst; simpl in *.
  destruct (thread_eqb t' t) eqn:E; [|discriminate].
  apply thread_eqb_eq in E; subst t'.
  now injection Hd as <- <-.
Qed.

Lemma step_single_exists (t : cef_thread_id_t) (task : Closure)
      (tr : list Event) :
  step' (Alive {| pending := [(t, task)]; trace := tr |})
        (after (run_closure' t task {| pending := []; trace := tr |})).
Proof.
  apply (step_run os kPathSep CefGetPath JoinPath LoadBinaryResource
                  GetResourceDir CefParseJSONAndReturnError
                  {| pending := [(t, task)]; trace := tr |} t task []).
  simpl. now rewrite thread_eqb_refl.
Qed.

(** A process with one task waiting, whose run leaves nothing to do, is
    in one of two states: before that task, or after it. *)
Lemma steps_single (t : cef_thread_id_t) (task : Closure) (tr : list Event)
      (p : Process) :
  (forall r, ~ step' (after (run_closure' t task
                               {| pending := []; trace := tr |})) r) ->
  steps' (Alive {| pending := [(t, task)]; trace := tr |}) p ->
  p = Alive {| pending := [(t, task)]; trace := tr |}
  \/ p = after (run_closure' t task {| pending := []; trace := tr |}).
Proof.
  intros Hstop H.
  inversion H as [|? q ? Hstep Hrest]; subst; [now left|right].
  apply step_single in Hstep; subst q.
  inversion Hrest as [|? q ? Hstep ?]; subst; [reflexivity|].
  now apply Hstop in Hstep.
Qed.

Lemma deliveries_logs (t : cef_thread_id_t) (logs : list string) :
  deliveries (map (Ev_LOG_ERROR t) logs) = [].
Proof. induction logs; simpl; auto. Qed.

Lemma error_logs_logs (t : cef_thread_id_t) (logs : list string) :
  error_logs (map (Ev_LOG_ERROR t) logs) = logs.
Proof. induction logs; simpl; congruence. Qed.

Lemma resource_reads_logs (t : cef_thread_id_t) (logs : list string) :
  resource_reads (map (Ev_LOG_ERROR t) logs) = [].
Proof. induction logs; simpl; auto. Qed.

(** On the FILE thread [GetInternalManifest] reads the manifest once,
    logs once exactly when it has no dictionary to deliver, and reposts
    the delivery to the UI thread. *)
Lemma GetInternalManifest_on_FILE
      (path : string) (callback : ManifestCallback) (w : World) :
  exists manifest_path logs,
    GetInternalExtensionResourcePath os kPathSep CefGetPath
      (JoinPath path "manifest.json") = Some manifest_path
    /\ let manifest :=
         spec_manifest (LoadBinaryResource (StdString.c_str manifest_path))
                       CefParseJSONAndReturnError in
       length logs = match manifest with None => 1 | Some _ => 0 end
       /\ GetInternalManifest' TID_FILE path callback w
          = Done tt
              {| pending :=
                   pending w
                   ++ [(TID_UI, Bind_RunManifestCallback callback manifest)];
                 trace :=
                   trace w
                   ++ Ev_LoadBinaryResource TID_FILE
                        (StdString.c_str manifest_path)
                      :: map (Ev_LOG_ERROR TID_FILE) logs
                      ++ [Ev_CefPostTask
                            TID_FILE TID_UI
                            (Bind_RunManifestCallback callback manifest)] |}.
Proof.
  destruct (resource_paths_spec os kPathSep CefGetPath
              (JoinPath path "manifest.json") None) as [Hmp _].
  unfold GetInternalManifest, spec_manifest.
  destruct (GetInternalExtensionResourcePath _ _ _ _)
    as [manifest_path|]; [clear Hmp|discriminate].
  exists manifest_path.
  assert (Hpost : forall m logs w0,
             trace w0 = trace w
                        ++ Ev_LoadBinaryResource TID_FILE
                             (StdString.c_str manifest_path)
                           :: map (Ev_LOG_ERROR TID_FILE) logs ->
             pending w0 = pending w ->
             RunManifestCallback TID_FILE callback m w0
             = Done tt
                 {| pending :=
                      pending w ++ [(TID_UI, Bind_RunManifestCallback callback m)];
                    trace :=
                      trace w
                      ++ Ev_LoadBinaryResource TID_FILE
                           (StdString.c_str manifest_path)
                         :: map (Ev_LOG_ERROR TID_FILE) logs
                         ++ [Ev_CefPostTask
                               TID_FILE TID_UI
                               (Bind_RunManifestCallback callback m)] |}).
  { intros m logs w0 Htr Hpe.
    rewrite RunManifestCallback_off_UI by discriminate.
    rewrite Htr, Hpe, <- app_assoc. reflexivity. }
  unfold bind, unhandled, LOG_ERROR, emit; cbn [CefCurrentlyOn thread_eqb negb].
  destruct (LoadBinaryResource _) as [loaded contents]; cbn [fst snd].
  destruct loaded; cbn [negb orb].
  2:{ eexists [_]; split; [reflexivity|split; [reflexivity|]].
      apply Hpost; simpl; [|reflexivity].
      now rewrite <- app_assoc. }
  destruct contents as [|c contents]; cbn [StdString.empty String.eqb].
  { eexists [_]; split; [reflexivity|split; [reflexivity|]].
    apply Hpost; simpl; [|reflexivity].
    now rewrite <- app_assoc. }
  replace (String.eqb (String c contents) "") with false by reflexivity.
  destruct (CefParseJSONAndReturnError (String c contents))
    as [value error_msg]; cbn [fst].
  destruct value as [[| | | | | |d|]|]; cbn [CefValue_GetType value_type_eqb negb];
    try (eexists [_]; split; [reflexivity|split; [reflexivity|]];
         apply Hpost; simpl; [|reflexivity];
         now rewrite <- app_assoc).
  exists []; split; [reflexivity|split; [reflexivity|]].
  apply Hpost; reflexivity.
Qed.

(** Reading the events of a trace built by appending. *)
Ltac read_trace :=
  repeat first
    [ rewrite deliveries_app | rewrite error_logs_app
    | rewrite resource_reads_app | rewrite engine_loads_app
    | rewrite file_posts_app
    | rewrite deliveries_logs | rewrite error_logs_logs
    | rewrite resource_reads_logs
    | progress cbn [deliveries error_logs resource_reads engine_loads
                    file_posts app world_of trace idle] ].

(** From a world with nothing waiting, a load entered on the FILE
    thread is two states away from its end: the repost waiting for the
    UI thread, then the delivery done. *)
Lemma loader_states
      (path : string) (callback : ManifestCallback) (w : World) :
  pending w = [] ->
  exists manifest_path logs,
    GetInternalExtensionResourcePath os kPathSep CefGetPath
      (JoinPath path "manifest.json") = Some manifest_path
    /\ let manifest :=
         spec_manifest (LoadBinaryResource (StdString.c_str manifest_path))
                       CefParseJSONAndReturnError in
       let posted :=
         trace w
         ++ Ev_LoadBinaryResource TID_FILE (StdString.c_str manifest_path)
            :: map (Ev_LOG_ERROR TID_FILE) logs
            ++ [Ev_CefPostTask TID_FILE TID_UI
                  (Bind_RunManifestCallback callback manifest)] in
       let waiting :=
         Alive {| pending :=
                    [(TID_UI, Bind_RunManifestCallback callback manifest)];
                  trace := posted |} in
       let final :=
         Alive {| pending := [];
                  trace :=
                    posted
                    ++ [Ev_CallbackRun TID_UI callback manifest;
                        match callback with
                        | Bind_LoadExtensionWithManifest rc p handler =>
                            Ev_LoadExtension TID_UI rc p manifest handler
                        end] |} in
       length logs = match manifest with None => 1 | Some _ => 0 end
       /\ after (GetInternalManifest' TID_FILE path callback w) = waiting
       /\ steps' waiting final
       /\ forall p, steps' waiting p -> p = waiting \/ p = final.
Proof.
  intros Hidle.
  destruct (GetInternalManifest_on_FILE path callback w)
    as (manifest_path & logs & Hmp & Hlen & Hrun).
  exists manifest_path, logs. split; [exact Hmp|]. cbv zeta in *.
  rewrite Hrun, Hidle; cbn [app after].
  set (manifest := spec_manifest _ _) in *.
  set (posted := trace w ++ _).
  assert (Hfinal :
            after (run_closure' TID_UI
                     (Bind_RunManifestCallback callback manifest)
                     {| pending := []; trace := posted |})
            = Alive {| pending := [];
                       trace :=
                         posted
                         ++ [Ev_CallbackRun TID_UI callback manifest;
                             match callback with
                             | Bind_LoadExtensionWithManifest rc p handler =>
                                 Ev_LoadExtension TID_UI rc p manifest handler
                             end] |}).
  { destruct callback as [rc p handler]; cbn [run_closure].
    now rewrite RunManifestCallback_on_UI. }
  split; [exact Hlen|]. split; [reflexivity|]. split.
  - eapply steps_step; [apply step_single_exists|].
    rewrite Hfinal. apply steps_refl.
  - intros p Hp. rewrite <- Hfinal. apply steps_single; [|exact Hp].
    rewrite Hfinal. intros r. now apply step_from_idle.
Qed.


Lemma steps_from_idle (w : World) (p : Process) :
  pending w = [] -> steps' (Alive w) p -> p = Alive w.
Proof.
  intros E H; inversion H as [|? q ? Hstep ?]; subst; [reflexivity|].
  now apply step_from_idle in Hstep.
Qed.

Lemma GetInternalManifest_off_FILE
      (t : cef_thread_id_t) (path : string) (callback : ManifestCallback)
      (w : World) :
  t <> TID_FILE ->
  GetInternalManifest' t path callback w
  = Done tt
      {| pending := pending w
                    ++ [(TID_FILE, Bind_GetInternalManifest path callback)];
         trace := trace w
                  ++ [Ev_CefPostTask
                        t TID_FILE
                        (Bind_GetInternalManifest path callback)] |}.
Proof.
  intros Ht. unfold GetInternalManifest, CefCurrentlyOn.
  now rewrite (proj2 (thread_eqb_neq t TID_FILE) Ht).
Qed.

(** C3: whatever thread [GetInternalManifest] is entered on, whatever
    tasks are waiting and however the read and the parse turn out, no
    state the process can reach shows a callback run anywhere but on
    the UI thread: [RunManifestCallback] runs the callback inline on
    the UI thread and reposts itself to the UI thread from any other.
    Entered on any thread with nothing else to do, the load does come
    to rest with its one delivery made on the UI thread. *)
Theorem continuation_runs_on_UI_only
        (t : cef_thread_id_t) (path : string) (callback : ManifestCallback) :
  (forall w p,
      on_UI_only (trace w) ->
      steps' (after (GetInternalManifest' t path callback w)) p ->
      on_UI_only (trace (world_of p)))
  /\ (forall manifest w,
        RunManifestCallback TID_UI callback manifest w
        = ManifestCallback_Run TID_UI callback manifest w)
  /\ (forall t' manifest w,
        t' <> TID_UI ->
        RunManifestCallback t' callback manifest w
        = CefPostTask t' TID_UI
                      (Bind_RunManifestCallback callback manifest) w)
  /\ exists final manifest,
       steps' (after (GetInternalManifest' t path callback idle)) final
       /\ quiescent final
       /\ deliveries (trace (world_of final))
          = [(TID_UI, callback, manifest)].
Proof.
  split; [|split; [|split]].
  - intros w p Hw Hp.
    apply (steps_on_UI_only _ _ Hp).
    destruct (extends_GetInternalManifest t path callback w)
      as (added & E & Hg).
    rewrite E. now apply on_UI_only_app.
  - reflexivity.
  - intros t' manifest w Ht'.
    now rewrite RunManifestCallback_off_UI.
  - assert (Hfile : forall w,
               pending w = [] -> deliveries (trace w) = [] ->
               exists final manifest,
                 steps' (after (GetInternalManifest' TID_FILE path callback w))
                        final
                 /\ quiescent final
                 /\ deliveries (trace (world_of final))
                    = [(TID_UI, callback, manifest)]).
    { intros w Hidle Hquiet.
      destruct (loader_states path callback w Hidle)
        as (manifest_path & logs & _ & H).
      cbv zeta in H. destruct H as (_ & -> & Hrun & _).
      eexists; eexists; split; [exact Hrun|]. split.
      - eexists; split; reflexivity.
      - read_trace. rewrite Hquiet. now destruct callback. }
    destruct (thread_eqb t TID_FILE) eqn:E.
    + apply thread_eqb_eq in E; subst t. now apply Hfile.
    + apply thread_eqb_neq in E.
      rewrite GetInternalManifest_off_FILE by assumption.
      destruct (Hfile {| pending := [];
                         trace := [Ev_CefPostTask
                                     t TID_FILE
                                     (Bind_GetInternalManifest path callback)] |}
                      eq_refl eq_refl)
        as (final & manifest & Hrun & Hq & Hd).
      exists final, manifest. split; [|now split].
      eapply steps_step; [apply step_single_exists|exact Hrun].
Qed.

(** C9: [AddInternalExtensionToResourceManager] checks
    [IsInternalExtension] of the extension path before anything else,
    so for a path that is not internal the call is a fatal fault on
    whatever thread it is made, with nothing posted and no provider
    added; for an internal path the call completes. *)
Theorem AddInternalExtension_requires_internal
        (extension : CefExtension) (rm : CefResourceManager) :
  (IsInternalExtension' (GetPath extension) = Some false ->
   forall t w,
     AddInternalExtensionToResourceManager' t extension rm w
     = Fatal "Check failed" w)
  /\ (IsInternalExtension' (GetPath extension) = Some true ->
      forall t w, exists w',
        AddInternalExtensionToResourceManager' t extension rm w
        = Done tt w').
Proof.
  unfold AddInternalExtensionToResourceManager, bind, unhandled.
  split; intros E t w; rewrite E; [reflexivity|]. cbn [DCHECK].
  destruct (negb (CefCurrentlyOn t TID_IO)); [now eexists|].
  destruct (resource_paths_spec os kPathSep CefGetPath
              (GetPath extension) None) as [-> _].
  destruct os; [now eexists|].
  destruct GetResourceDir; now eexists.
Qed.

(** C10: for a path classified as external, [LoadExtension] on the UI
    thread does one thing, the engine call with a null manifest; and
    entered on any thread it comes to rest with exactly that one engine
    call made on the UI thread, no resource ever read and no task ever
    posted to the FILE thread. *)
Theorem external_extension_skips_manifest
        (rc : CefRequestContext) (path : string)
        (handler : CefExtensionHandler) :
  IsInternalExtension' path = Some false ->
  (forall w,
      LoadExtension' TID_UI rc path handler w
      = Done tt {| pending := pending w;
                   trace := trace w
                            ++ [Ev_LoadExtension TID_UI rc path None handler] |})
  /\ forall t,
       let start := after (LoadExtension' t rc path handler idle) in
       (exists final, steps' start final /\ quiescent final)
       /\ forall p,
            steps' start p ->
            resource_reads (trace (world_of p)) = []
            /\ file_posts (trace (world_of p)) = []
            /\ (quiescent p ->
                engine_loads (trace (world_of p))
                = [Ev_LoadExtension TID_UI rc path None handler]).
Proof.
  intros Hext.
  assert (Hui : forall w,
             LoadExtension' TID_UI rc path handler w
             = Done tt {| pending := pending w;
                          trace := trace w
                                   ++ [Ev_LoadExtension TID_UI rc path None
                                                        handler] |}).
  { intros w. unfold LoadExtension, bind, unhandled.
    cbn [CefCurrentlyOn thread_eqb negb]. now rewrite Hext. }
  split; [exact Hui|]. intros t; cbv zeta.
  destruct (thread_eqb t TID_UI) eqn:E.
  - apply thread_eqb_eq in E; subst t. rewrite Hui; cbn [after idle].
    split.
    + eexists; split; [apply steps_refl|]. eexists; split; reflexivity.
    + intros p Hp. apply steps_from_idle in Hp; [subst p|reflexivity].
      now read_trace.
  - unfold LoadExtension at 1 2, CefCurrentlyOn. rewrite E.
    cbn [negb CefPostTask after idle pending trace app].
    assert (Hfinal :
              after (run_closure' TID_UI (Bind_LoadExtension rc path handler)
                       {| pending := [];
                          trace := [Ev_CefPostTask
                                      t TID_UI
                                      (Bind_LoadExtension rc path handler)] |})
              = Alive {| pending := [];
                         trace := [Ev_CefPostTask
                                     t TID_UI
                                     (Bind_LoadExtension rc path handler);
                                   Ev_LoadExtension TID_UI rc path None
                                                    handler] |}).
    { cbn [run_closure]. now rewrite Hui. }
    split.
    + eexists; split.
      * eapply steps_step; [apply step_single_exists|].
        rewrite Hfinal; apply steps_refl.
      * eexists; split; reflexivity.
    + intros p Hp. apply steps_single in Hp.
      * rewrite Hfinal in Hp. destruct Hp as [-> | ->]; read_trace.
        -- repeat split. intros (w' & [= <-] & Hw'); discriminate.
        -- now repeat split.
      * rewrite Hfinal. intros r. now apply step_from_idle.
Qed.

End LoaderFacts.

Section HostFacts.

Variable os : platform.
Variable kPathSep : ascii.
Variable CefGetPath : cef_path_key_t -> option string.
Variable JoinPath : string -> string -> string.
Variable LoadBinaryResource : string -> bool * string.
Variable GetResourceDir : option string.
Variable CefParseJSONAndReturnError : string -> option CefValue * string.

(** The schedule of [drain] is one of the runs of the process. *)
Lemma drain_steps (fuel : nat) (p : Process) :
  steps os kPathSep CefGetPath JoinPath LoadBinaryResource GetResourceDir
        CefParseJSONAndReturnError p
        (drain os kPathSep CefGetPath JoinPath LoadBinaryResource
               GetResourceDir CefParseJSONAndReturnError fuel p).
Proof.
  revert p; induction fuel as [|fuel IH]; intros p; [apply steps_refl|].
  destruct p as [w|what w]; [|apply steps_refl].
  cbn [drain]. destruct (pending w) as [|[t task] rest] eqn:E;
    [apply steps_refl|].
  eapply steps_step; [|apply IH].
  apply step_run. rewrite E; simpl. now rewrite thread_eqb_refl.
Qed.

End HostFacts.

(** ** The sample host at work *)

(** An internal extension loaded from the IO thread: the load moves to
    the UI thread, the manifest is read on the FILE thread, and the
    engine gets the parsed manifest on the UI thread. *)
Example internal_load_trace :
  drain OS_POSIX slash Sample.resources Sample.join Sample.load
        Sample.resource_dir Sample.parse 5
        (after (LoadExtension OS_POSIX slash Sample.resources Sample.join
                              Sample.load Sample.parse
                              TID_IO 1 "/opt/app/set_page_color" 2 idle))
  = Alive
      {| pending := [];
         trace :=
           let callback :=
             Bind_LoadExtensionWithManifest 1 "/opt/app/set_page_color" 2 in
           [Ev_CefPostTask
              TID_IO TID_UI (Bind_LoadExtension 1 "/opt/app/set_page_color" 2);
            Ev_CefPostTask
              TID_UI TID_FILE
              (Bind_GetInternalManifest "/opt/app/set_page_color" callback);
            Ev_LoadBinaryResource
              TID_FILE "extensions/set_page_color/manifest.json";
            Ev_CefPostTask
              TID_FILE TID_UI
              (Bind_RunManifestCallback callback (Some Sample.manifest));
            Ev_CallbackRun TID_UI callback (Some Sample.manifest);
            Ev_LoadExtension TID_UI 1 "/opt/app/set_page_color"
                             (Some Sample.manifest) 2] |}.
Proof. reflexivity. Qed.

(** The same extension under a name the binary has no manifest for:
    one error logged, a null manifest delivered. *)
Example missing_manifest_trace :
  drain OS_POSIX slash Sample.resources Sample.join (fun _ => (false, ""%string))
        Sample.resource_dir Sample.parse 5
        (after (GetInternalManifest
                  OS_POSIX slash Sample.resources Sample.join
                  (fun _ => (false, ""%string)) Sample.parse
                  TID_FILE "set_page_color"
                  (Bind_LoadExtensionWithManifest 1 "set_page_color" 2) idle))
  = Alive
      {| pending := [];
         trace :=
           let callback :=
             Bind_LoadExtensionWithManifest 1 "set_page_color" 2 in
           [Ev_LoadBinaryResource
              TID_FILE "extensions/set_page_color/manifest.json";
            Ev_LOG_ERROR
              TID_FILE
              "Failed to load manifest from extensions/set_page_color/manifest.json";
            Ev_CefPostTask
              TID_FILE TID_UI (Bind_RunManifestCallback callback None);
            Ev_CallbackRun TID_UI callback None;
            Ev_LoadExtension TID_UI 1 "set_page_color" None 2] |}.
Proof. reflexivity. Qed.

(** Registration on a POSIX build: reposted to the IO thread, then one
    directory provider at priority 50. *)
Example registration_trace :
  let extension :=
    {| GetIdentifier := "abc123";
       GetPath := "/opt/app/set_page_color";
       GetManifest := Sample.manifest |} in
  drain OS_POSIX slash Sample.resources Sample.join Sample.load
        Sample.resource_dir Sample.parse 5
        (after (AddInternalExtensionToResourceManager
                  OS_POSIX slash Sample.resources Sample.resource_dir
                  TID_UI extension 9 idle))
  = Alive
      {| pending := [];
         trace :=
           [Ev_CefPostTask
              TID_UI TID_IO
              (Bind_AddInternalExtensionToResourceManager extension 9);
            Ev_AddDirectoryProvider
              TID_IO 9 "chrome-extension://abc123/"
              "/opt/app/files/extensions/set_page_color" 50 ""] |}.
Proof. reflexivity. Qed.


Lemma continuation_runs_on_UI_only_witness :
  on_UI_only
    (trace (world_of
              (drain OS_POSIX slash Sample.resources Sample.join Sample.load
                     Sample.resource_dir Sample.parse 5
                     (after (GetInternalManifest
                               OS_POSIX slash Sample.resources Sample.join
                               Sample.load Sample.parse
                               TID_IO "set_page_color"
                               (Bind_LoadExtensionWithManifest
                                  1 "set_page_color" 2)
                               idle))))).
Proof.
  apply (proj1 (continuation_runs_on_UI_only
                  OS_POSIX slash Sample.resources Sample.join Sample.load
                  Sample.resource_dir Sample.parse TID_IO "set_page_color"
                  (Bind_LoadExtensionWithManifest 1 "set_page_color" 2))
               idle).
  - intros on callback manifest [].
  - apply drain_steps.
Defined.

Lemma AddInternalExtension_requires_internal_witness :
  AddInternalExtensionToResourceManager
    OS_POSIX slash Sample.resources Sample.resource_dir TID_UI
    {| GetIdentifier := "abc123";
       GetPath := "/home/user/my_extension";
       GetManifest := [] |} 9 idle
  = Fatal "Check failed" idle.
Proof.
  apply (proj1 (AddInternalExtension_requires_internal
                  OS_POSIX slash Sample.resources Sample.resource_dir
                  {| GetIdentifier := "abc123";
                     GetPath := "/home/user/my_extension";
                     GetManifest := [] |} 9)).
  reflexivity.
Defined.

Lemma external_extension_skips_manifest_witness :
  LoadExtension OS_POSIX slash Sample.resources Sample.join Sample.load
                Sample.parse TID_UI 1 "/home/user/my_extension" 2 idle
  = Done tt
      {| pending := [];
         trace := [Ev_LoadExtension TID_UI 1 "/home/user/my_extension"
                                    None 2] |}.
Proof.
  apply (proj1 (external_extension_skips_manifest
                  OS_POSIX slash Sample.resources Sample.join Sample.load
                  Sample.resource_dir Sample.parse
                  1 "/home/user/my_extension" 2 eq_refl)).
Defined.

(** * Further properties of the code *)

Lemma append_empty_right (s : string) : (s ++ "")%string = s.
Proof. induction s; simpl; congruence. Qed.

Lemma append_inv_head_string (a b c : string) :
  (a ++ b)%string = (a ++ c)%string -> b = c.
Proof. induction a; simpl; intros H; [assumption|]. inversion H; auto. Qed.

(** ** Paths *)

Open Scope string_scope.

Section MorePathFacts.

Variable os : platform.
Variable kPathSep : ascii.
Variable CefGetPath : cef_path_key_t -> option string.

Let root : string := GetResourcesPath kPathSep CefGetPath.

(** X1: in a Windows build the internal path and the internal resource
    path of any path hold no backslash: they always use the forward
    slash as separator. *)
Theorem windows_internal_paths_use_forward_slash (path : string) :
  exists internal_path,
    GetInternalPath OS_WIN kPathSep CefGetPath path = Some internal_path
    /\ occurs backslash internal_path = false
    /\ exists resource_path,
         GetInternalExtensionResourcePath OS_WIN kPathSep CefGetPath path
         = Some resource_path
         /\ occurs backslash resource_path = false.
Proof.
  pose proof (GetInternalPath_spec OS_WIN kPathSep CefGetPath path) as H.
  assert (Hclean : occurs backslash
                     (spec_relative_path OS_WIN
                        (GetResourcesPath kPathSep CefGetPath) path) = false).
  { apply replace_clears; discriminate. }
  eexists; split; [exact H|]. split; [exact Hclean|].
  unfold GetInternalExtensionResourcePath; rewrite H; cbn [obind].
  eexists; split; [reflexivity|].
  rewrite occurs_app, Hclean. reflexivity.
Qed.

(** X2: the resource path of an internal path lies under the directory
    of an allowlisted extension: it is [extensions/<name>], alone or
    followed by a slash and more, and [GetExtensionResourcePath]
    returns that path. *)
Theorem internal_resources_stay_under_allowlisted_name
        (path : string) (internal : option bool) :
  IsInternalExtension os kPathSep CefGetPath path = Some true ->
  exists n rest,
    In n extensions
    /\ (rest = "" \/ exists s, rest = "/" ++ s)
    /\ GetInternalExtensionResourcePath os kPathSep CefGetPath path
       = Some ("extensions/" ++ n ++ rest)
    /\ GetExtensionResourcePath os kPathSep CefGetPath path internal
       = Some ("extensions/" ++ n ++ rest,
               match internal with
               | Some _ => Some true
               | None => None
               end).
Proof.
  intros Hint.
  assert (Hloop : IsInternalExtension_loop
                    (spec_relative_path
                       os (GetResourcesPath kPathSep CefGetPath) path)
                    extensions = true).
  { pose proof (IsInternalExtension_spec os kPathSep CefGetPath path) as E.
    congruence. }
  apply IsInternalExtension_loop_iff in Hloop as (n & Hin & Hn).
  destruct (resource_paths_spec os kPathSep CefGetPath path internal)
    as (Hres & b & Hb & Hget).
  assert (b = true) by congruence; subst b.
  destruct Hn as [Hn|[s Hn]].
  - exists n, "". rewrite Hn in Hres, Hget.
    rewrite (append_empty_right n). auto.
  - exists n, ("/" ++ s). rewrite Hn in Hres, Hget.
    repeat split; eauto.
Qed.

(** X3: a backslash right after the name of an allowlisted extension
    is a separator in Windows builds only: there the path is internal
    and its resource path has the slash; in the other builds the same
    path is external. *)
Theorem backslash_after_name_is_a_separator_on_windows_only
        (n s : string) :
  In n extensions ->
  (os = OS_WIN ->
   IsInternalExtension os kPathSep CefGetPath (root ++ n ++ "\" ++ s)
   = Some true
   /\ GetInternalExtensionResourcePath os kPathSep CefGetPath
        (root ++ n ++ "\" ++ s)
      = Some ("extensions/" ++ n ++ "/"
                ++ StdString.replace backslash slash s))
  /\ (os = OS_POSIX ->
      IsInternalExtension os kPathSep CefGetPath (root ++ n ++ "\" ++ s)
      = Some false).
Proof.
  intros Hin. destruct (extensions_plain n Hin) as [Hb Hs].
  pose proof (GetInternalPath_spec os kPathSep CefGetPath
                                   (root ++ n ++ "\" ++ s)) as Hrel.
  fold root in Hrel.
  unfold spec_relative_path in Hrel. rewrite spec_strip_prefix_app in Hrel.
  split; intros Eos; rewrite Eos in *.
  - assert (Erep : StdString.replace backslash slash ("\" ++ s)
                   = "/" ++ StdString.replace backslash slash s)
      by reflexivity.
    rewrite replace_app, (replace_absent _ _ n Hb), Erep in Hrel.
    split.
    + unfold IsInternalExtension. rewrite Hrel; cbn [obind]. f_equal.
      apply IsInternalExtension_loop_iff. exists n; split; [assumption|].
      right. now exists (StdString.replace backslash slash s).
    + unfold GetInternalExtensionResourcePath. now rewrite Hrel.
  - unfold IsInternalExtension. rewrite Hrel; cbn [obind]. f_equal.
    destruct (IsInternalExtension_loop _ _) eqn:E; [|reflexivity].
    apply IsInternalExtension_loop_iff in E as (m & [<-|[]] & Hm).
    destruct Hin as [<-|[]].
    destruct Hm as [Hm|[s' Hm]]; cbn in Hm; discriminate.
Qed.

(** X4: the resources prefix is optional: a path that does not itself
    begin with the prefix is classified, and mapped to a resource path,
    as the same path with the prefix in front. *)
Theorem resources_prefix_is_optional (path : string) :
  root = "" \/ String.prefix root path = false ->
  IsInternalExtension os kPathSep CefGetPath (root ++ path)
  = IsInternalExtension os kPathSep CefGetPath path
  /\ GetInternalExtensionResourcePath os kPathSep CefGetPath (root ++ path)
     = GetInternalExtensionResourcePath os kPathSep CefGetPath path.
Proof.
  intros Hcond.
  assert (H : GetInternalPath os kPathSep CefGetPath (root ++ path)
              = GetInternalPath os kPathSep CefGetPath path).
  { rewrite !GetInternalPath_spec. fold root. f_equal.
    unfold spec_relative_path. rewrite spec_strip_prefix_app.
    replace (spec_strip_prefix root path) with path; [reflexivity|].
    destruct Hcond as [E|E].
    - rewrite E. now rewrite spec_strip_prefix_empty.
    - unfold spec_strip_prefix. now rewrite E. }
  unfold IsInternalExtension, GetInternalExtensionResourcePath.
  now rewrite H.
Qed.

End MorePathFacts.

Lemma internal_resources_stay_under_allowlisted_name_witness :
  exists n rest,
    In n extensions
    /\ (rest = "" \/ exists s, rest = "/" ++ s)
    /\ GetInternalExtensionResourcePath
         OS_WIN backslash Sample.resources
         "/opt/app\set_page_color\img\icon.png"
       = Some ("extensions/" ++ n ++ rest)
    /\ GetExtensionResourcePath
         OS_WIN backslash Sample.resources
         "/opt/app\set_page_color\img\icon.png" (Some false)
       = Some ("extensions/" ++ n ++ rest, Some true).
Proof.
  apply (internal_resources_stay_under_allowlisted_name
           OS_WIN backslash Sample.resources
           "/opt/app\set_page_color\img\icon.png" (Some false)).
  reflexivity.
Defined.

Lemma backslash_after_name_witness :
  IsInternalExtension OS_WIN backslash Sample.resources
                      "/opt/app\set_page_color\popup.html" = Some true
  /\ IsInternalExtension OS_POSIX slash Sample.resources
                         "/opt/app/set_page_color\popup.html" = Some false.
Proof.
  split.
  - apply (proj1 (backslash_after_name_is_a_separator_on_windows_only
                    OS_WIN backslash Sample.resources
                    "set_page_color" "popup.html" (or_introl eq_refl))
                 eq_refl).
  - apply (proj2 (backslash_after_name_is_a_separator_on_windows_only
                    OS_POSIX slash Sample.resources
                    "set_page_color" "popup.html" (or_introl eq_refl))
                 eq_refl).
Defined.

Lemma resources_prefix_is_optional_witness :
  IsInternalExtension OS_POSIX slash Sample.resources
                      "/opt/app/set_page_color/popup.html"
  = IsInternalExtension OS_POSIX slash Sample.resources
                        "set_page_color/popup.html".
Proof.
  apply (resources_prefix_is_optional
           OS_POSIX slash Sample.resources "set_page_color/popup.html").
  right; reflexivity.
Defined.

(** ** Origins and URLs *)

Lemma append_char_inj (a b : string) (c : ascii) :
  a ++ String c "" = b ++ String c "" -> a = b.
Proof.
  revert b; induction a as [|x a IH]; intros [|y b] H; simpl in H.
  - reflexivity.
  - injection H as _ H. destruct b; discriminate.
  - injection H as _ H. destruct a; discriminate.
  - injection H as -> H. f_equal. now apply IH.
Qed.

(** The URL of a manifest with a popup. *)
Lemma GetExtensionURL_popup_shape
      (extension : CefExtension) (browser_action : CefDictionaryValue)
      (default_popup : string) :
  dictionary_get (GetManifest extension) "browser_action"
  = Some (V_DICTIONARY browser_action) ->
  dictionary_get browser_action "default_popup"
  = Some (V_STRING default_popup) ->
  default_popup <> "" ->
  GetExtensionURL extension
  = GetExtensionOrigin (GetIdentifier extension) ++ default_popup.
Proof.
  intros Hba Hpopup Hne.
  unfold GetExtensionURL, GetDictionary, GetString.
  rewrite Hba; simpl. rewrite Hpopup.
  now rewrite (proj2 (empty_false default_popup) Hne).
Qed.

(** X5: extensions with different identifiers have different origins. *)
Theorem GetExtensionOrigin_injective (id1 id2 : string) :
  GetExtensionOrigin id1 = GetExtensionOrigin id2 -> id1 = id2.
Proof.
  unfold GetExtensionOrigin. intros H.
  apply append_inv_head_string in H.
  now apply append_char_inj in H.
Qed.

Lemma GetExtensionOrigin_injective_witness : "abc123" = "abc123".
Proof.
  apply (GetExtensionOrigin_injective "abc123" "abc123"). reflexivity.
Defined.

(** X6: [GetExtensionURL] is not empty exactly when the manifest holds
    under [browser_action] a dictionary that holds under
    [default_popup] a string that is not empty; an entry of another type
    counts as missing.  The URL then is the origin followed by that
    string, so it is never the bare origin. *)
Theorem GetExtensionURL_nonempty_iff (extension : CefExtension) :
  (GetExtensionURL extension <> ""
   <-> exists browser_action default_popup,
         dictionary_get (GetManifest extension) "browser_action"
         = Some (V_DICTIONARY browser_action)
         /\ dictionary_get browser_action "default_popup"
            = Some (V_STRING default_popup)
         /\ default_popup <> "")
  /\ GetExtensionURL extension <> GetExtensionOrigin (GetIdentifier extension).
Proof.
  assert (Hiff : GetExtensionURL extension <> ""
                 <-> exists browser_action default_popup,
                       dictionary_get (GetManifest extension) "browser_action"
                       = Some (V_DICTIONARY browser_action)
                       /\ dictionary_get browser_action "default_popup"
                          = Some (V_STRING default_popup)
                       /\ default_popup <> "").
  { split.
    - unfold GetExtensionURL, GetDictionary, GetString.
      destruct (dictionary_get (GetManifest extension) "browser_action")
        as [[| | | | | |ba|]|]; cbn;
        try (intros H; now contradiction H).
      destruct (dictionary_get ba "default_popup")
        as [[| | | |popup| | |]|] eqn:Epopup; cbn;
        try (intros H; now contradiction H).
      destruct popup as [|c popup]; cbn; [intros H; now contradiction H|].
      intros _. exists ba, (String c popup).
      split; [reflexivity|]. split; [exact Epopup|discriminate].
    - intros (ba & popup & Hba & Hpopup & Hne).
      rewrite (GetExtensionURL_popup_shape extension ba popup
                 Hba Hpopup Hne).
      unfold GetExtensionOrigin. discriminate. }
  split; [exact Hiff|].
  intros E.
  assert (Hne : GetExtensionURL extension <> "").
  { rewrite E. unfold GetExtensionOrigin. discriminate. }
  apply Hiff in Hne as (ba & popup & Hba & Hpopup & Hne).
  rewrite (GetExtensionURL_popup_shape extension ba popup
             Hba Hpopup Hne) in E.
  rewrite <- (append_empty_right
                (GetExtensionOrigin (GetIdentifier extension))) in E at 2.
  apply append_inv_head_string in E. contradiction.
Qed.

(** ** Threads, faults and registrations *)

Open Scope list_scope.

Lemma thread_affine_app (a b : list Event) :
  thread_affine a -> thread_affine b -> thread_affine (a ++ b).
Proof. unfold thread_affine; intros; now apply Forall_app. Qed.

Lemma providers_app (a b : list Event) :
  providers (a ++ b) = providers a ++ providers b.
Proof.
  induction a as [|e a IH]; simpl; [reflexivity|].
  destruct e; simpl; congruence.
Qed.

Lemma posts_app (a b : list Event) :
  posts (a ++ b) = posts a ++ posts b.
Proof.
  induction a as [|e a IH]; simpl; [reflexivity|].
  destruct e; simpl; congruence.
Qed.

Lemma posts_logs (t : cef_thread_id_t) (logs : list string) :
  posts (map (Ev_LOG_ERROR t) logs) = [].
Proof. induction logs; simpl; auto. Qed.

Lemma engine_loads_logs (t : cef_thread_id_t) (logs : list string) :
  engine_loads (map (Ev_LOG_ERROR t) logs) = [].
Proof. induction logs; simpl; auto. Qed.

Lemma dequeue_In (t : cef_thread_id_t) (q rest : list (cef_thread_id_t * Closure))
      (task : Closure) :
  dequeue t q = Some (task, rest) ->
  In (t, task) q /\ forall e, In e rest -> In e q.
Proof.
  revert rest; induction q as [|[t' c] q IH]; intros rest H; simpl in H;
    [discriminate|].
  destruct (thread_eqb t t') eqn:E.
  - apply thread_eqb_eq in E; subst t'. injection H as <- <-.
    split; [now left | intros e He; now right].
  - destruct (dequeue t q) as [[found rest']|]; [|discriminate].
    injection H as <- <-.
    destruct (IH rest' eq_refl) as [Hin Hrest].
    split; [now right|].
    intros e [<-|He]; [now left | right; auto].
Qed.

Section CompletesFacts.

Variable ok : cef_thread_id_t * Closure -> Prop.

Lemma completes_ret {A : Type} (a : A) : completes ok (ret a).
Proof.
  intros w; exists a, w, []; simpl. now rewrite app_nil_r.
Qed.

Lemma completes_bind {A B : Type} (m : M A) (f : A -> M B) :
  completes ok m -> (forall a, completes ok (f a)) ->
  completes ok (bind m f).
Proof.
  intros Hm Hf w. unfold bind.
  destruct (Hm w) as (a & w1 & p1 & -> & E1 & H1).
  destruct (Hf a w1) as (b & w2 & p2 & -> & E2 & H2).
  exists b, w2, (p1 ++ p2). split; [reflexivity|].
  split; [now rewrite E2, E1, app_assoc | now apply Forall_app].
Qed.

Lemma completes_emit (e : Event) : completes ok (emit e).
Proof.
  intros w; eexists tt, _, []; split; [reflexivity|]; simpl.
  now rewrite app_nil_r.
Qed.

Lemma completes_CefPostTask (current target : cef_thread_id_t)
      (task : Closure) :
  ok (target, task) -> completes ok (CefPostTask current target task).
Proof.
  intros H w; eexists tt, _, [(target, task)]; split; [reflexivity|]; simpl.
  split; [reflexivity | now constructor].
Qed.

Lemma completes_DCHECK : completes ok (DCHECK true).
Proof. apply (completes_ret tt). Qed.

Lemma completes_unhandled {A : Type} (a : A) :
  completes ok (unhandled (Some a)).
Proof. apply (completes_ret a). Qed.

End CompletesFacts.

Section PipelineFacts.

Variable os : platform.
Variable kPathSep : ascii.
Variable CefGetPath : cef_path_key_t -> option string.
Variable JoinPath : string -> string -> string.
Variable LoadBinaryResource : string -> bool * string.
Variable GetResourceDir : option string.
Variable CefParseJSONAndReturnError : string -> option CefValue * string.

Local Abbreviation IsInternalExtension' :=
  (IsInternalExtension os kPathSep CefGetPath).
Local Abbreviation GetInternalManifest' :=
  (GetInternalManifest os kPathSep CefGetPath JoinPath LoadBinaryResource
                       CefParseJSONAndReturnError).
Local Abbreviation LoadExtension' :=
  (LoadExtension os kPathSep CefGetPath JoinPath LoadBinaryResource
                 CefParseJSONAndReturnError).
Local Abbreviation AddInternalExtensionToResourceManager' :=
  (AddInternalExtensionToResourceManager os kPathSep CefGetPath
                                         GetResourceDir).
Local Abbreviation run_closure' :=
  (run_closure os kPathSep CefGetPath JoinPath LoadBinaryResource
               GetResourceDir CefParseJSONAndReturnError).
Local Abbreviation step' :=
  (step os kPathSep CefGetPath JoinPath LoadBinaryResource GetResourceDir
        CefParseJSONAndReturnError).
Local Abbreviation steps' :=
  (steps os kPathSep CefGetPath JoinPath LoadBinaryResource GetResourceDir
         CefParseJSONAndReturnError).
Local Abbreviation checked :=
  (registration_checked os kPathSep CefGetPath).

Lemma thread_affine_logs (logs : list string) :
  thread_affine (map (Ev_LOG_ERROR TID_FILE) logs).
Proof. induction logs; simpl; constructor; auto. reflexivity. Qed.

Lemma IsInternalExtension_answers (path : string) :
  exists b, IsInternalExtension' path = Some b.
Proof. eexists; apply IsInternalExtension_spec. Qed.

Lemma GetInternalExtensionResourcePath_answers (path : string) :
  exists r,
    GetInternalExtensionResourcePath os kPathSep CefGetPath path = Some r.
Proof.
  destruct (resource_paths_spec os kPathSep CefGetPath path None)
    as [H _]; eauto.
Qed.

(** What [LoadExtension] does on the UI thread. *)
Lemma LoadExtension_on_UI
      (rc : CefRequestContext) (path : string) (handler : CefExtensionHandler)
      (w : World) :
  exists b,
    IsInternalExtension' path = Some b
    /\ LoadExtension' TID_UI rc path handler w
       = Done tt
           {| pending :=
                pending w
                ++ (if b
                    then [(TID_FILE,
                           Bind_GetInternalManifest
                             path
                             (Bind_LoadExtensionWithManifest rc path handler))]
                    else []);
              trace :=
                trace w
                ++ [if b
                    then Ev_CefPostTask
                           TID_UI TID_FILE
                           (Bind_GetInternalManifest
                              path
                              (Bind_LoadExtensionWithManifest rc path handler))
                    else Ev_LoadExtension TID_UI rc path None handler] |}.
Proof.
  destruct (IsInternalExtension_answers path) as [b Hb].
  exists b; split; [exact Hb|].
  unfold LoadExtension, bind, unhandled.
  cbn [CefCurrentlyOn thread_eqb negb]. rewrite Hb.
  destruct b.
  - now rewrite GetInternalManifest_off_FILE by discriminate.
  - unfold emit. now rewrite app_nil_r.
Qed.

Lemma LoadExtension_off_UI
      (t : cef_thread_id_t) (rc : CefRequestContext) (path : string)
      (handler : CefExtensionHandler) (w : World) :
  t <> TID_UI ->
  LoadExtension' t rc path handler w
  = Done tt
      {| pending := pending w ++ [(TID_UI, Bind_LoadExtension rc path handler)];
         trace := trace w
                  ++ [Ev_CefPostTask t TID_UI
                                     (Bind_LoadExtension rc path handler)] |}.
Proof.
  intros Ht. unfold LoadExtension, CefCurrentlyOn.
  now rewrite (proj2 (thread_eqb_neq t TID_UI) Ht).
Qed.

(** What a registration does, for an extension that passes the check:
    reposted from any thread but the IO thread, and there one provider
    at order 50, or none where a POSIX build finds no resource
    directory. *)
Lemma AddInternalExtensionToResourceManager_checked
      (t : cef_thread_id_t) (extension : CefExtension)
      (rm : CefResourceManager) (w : World) :
  IsInternalExtension' (GetPath extension) = Some true ->
  exists resource_path,
    GetInternalExtensionResourcePath os kPathSep CefGetPath
                                     (GetPath extension)
    = Some resource_path
    /\ AddInternalExtensionToResourceManager' t extension rm w
       = Done tt
           (if thread_eqb t TID_IO
            then
              {| pending := pending w;
                 trace :=
                   trace w
                   ++ match os, GetResourceDir with
                      | OS_WIN, _ =>
                          [Ev_AddProvider
                             TID_IO rm
                             (GetExtensionOrigin (GetIdentifier extension))
                             resource_path 50 ""%string]
                      | OS_POSIX, Some resource_dir =>
                          [Ev_AddDirectoryProvider
                             TID_IO rm
                             (GetExtensionOrigin (GetIdentifier extension))
                             (resource_dir ++ "/" ++ resource_path)%string
                             50 ""%string]
                      | OS_POSIX, None => []
                      end |}
            else
              {| pending :=
                   pending w
                   ++ [(TID_IO,
                        Bind_AddInternalExtensionToResourceManager
                          extension rm)];
                 trace :=
                   trace w
                   ++ [Ev_CefPostTask
                         t TID_IO
                         (Bind_AddInternalExtensionToResourceManager
                            extension rm)] |}).
Proof.
  intros Hint.
  destruct (GetInternalExtensionResourcePath_answers (GetPath extension))
    as [resource_path Hrp].
  exists resource_path; split; [exact Hrp|].
  unfold AddInternalExtensionToResourceManager, bind, unhandled, CefCurrentlyOn.
  rewrite Hint; cbn [DCHECK].
  destruct (thread_eqb t TID_IO) eqn:E; cbn [negb]; [|reflexivity].
  apply thread_eqb_eq in E; subst t. rewrite Hrp.
  destruct os; [reflexivity|].
  destruct GetResourceDir; [reflexivity|].
  unfold ret. destruct w; simpl. now rewrite app_nil_r.
Qed.

Lemma AddInternalExtensionToResourceManager_unchecked
      (t : cef_thread_id_t) (extension : CefExtension)
      (rm : CefResourceManager) (w : World) :
  IsInternalExtension' (GetPath extension) = Some false ->
  AddInternalExtensionToResourceManager' t extension rm w
  = Fatal "Check failed" w.
Proof.
  intros E. unfold AddInternalExtensionToResourceManager, bind, unhandled.
  now rewrite E.
Qed.

(** Whatever task a thread runs, every effect it has is on the thread
    the effect belongs on. *)
Lemma run_closure_affine (t : cef_thread_id_t) (task : Closure) :
  extends_trace thread_affine (run_closure' t task).
Proof.
  intros w. destruct task as [cb m|path cb|rc path handler|extension rm];
    cbn [run_closure].
  - destruct (thread_eqb t TID_UI) eqn:E.
    + apply thread_eqb_eq in E; subst t. destruct cb as [rc path handler].
      rewrite RunManifestCallback_on_UI; simpl.
      eexists; split; [reflexivity|]. repeat constructor.
    + apply thread_eqb_neq in E.
      rewrite RunManifestCallback_off_UI by assumption; simpl.
      eexists; split; [reflexivity|]. repeat constructor.
  - destruct (thread_eqb t TID_FILE) eqn:E.
    + apply thread_eqb_eq in E; subst t.
      destruct (GetInternalManifest_on_FILE
                  os kPathSep CefGetPath JoinPath LoadBinaryResource
                  CefParseJSONAndReturnError path cb w)
        as (mp & logs & _ & _ & ->); simpl.
      eexists; split; [reflexivity|].
      constructor; [reflexivity|].
      apply thread_affine_app; [apply thread_affine_logs|repeat constructor].
    + apply thread_eqb_neq in E.
      rewrite GetInternalManifest_off_FILE by assumption; simpl.
      eexists; split; [reflexivity|]. repeat constructor.
  - destruct (thread_eqb t TID_UI) eqn:E.
    + apply thread_eqb_eq in E; subst t.
      destruct (LoadExtension_on_UI rc path handler w) as (b & _ & ->); simpl.
      eexists; split; [reflexivity|]. destruct b; repeat constructor.
    + apply thread_eqb_neq in E.
      rewrite LoadExtension_off_UI by assumption; simpl.
      eexists; split; [reflexivity|]. repeat constructor.
  - destruct (IsInternalExtension_answers (GetPath extension)) as [[|] Hb].
    + destruct (AddInternalExtensionToResourceManager_checked
                  t extension rm w Hb) as (rp & _ & ->).
      destruct (thread_eqb t TID_IO); simpl;
        (eexists; split; [reflexivity|]).
      * destruct os; [|destruct GetResourceDir]; repeat constructor.
      * repeat constructor.
    + rewrite AddInternalExtensionToResourceManager_unchecked by assumption.
      exists []; simpl. rewrite app_nil_r. split; [reflexivity|constructor].
Qed.

(** X7: in every state a process can reach, whatever the tasks waiting
    at the start, each effect lies on its thread: the engine is asked
    to load an extension, and a manifest is handed to its callback, on
    the UI thread only; binary resources are read and loader errors
    logged on the FILE thread only; providers are registered on the IO
    thread only. *)
Theorem effects_stay_on_their_threads (p q : Process) :
  steps' p q ->
  thread_affine (trace (world_of p)) -> thread_affine (trace (world_of q)).
Proof.
  induction 1 as [p|p q r Hpq Hqr IH]; [auto|].
  intros Hp; apply IH.
  destruct Hpq as [w t task rest Hd]; simpl in Hp.
  destruct (run_closure_affine t task {| pending := rest; trace := trace w |})
    as (added & E & Hg).
  rewrite E; simpl. now apply thread_affine_app.
Qed.

(** A task whose registration, if it is one, passed the check runs to
    its end, and posts only such tasks. *)
Lemma run_closure_completes (t t0 : cef_thread_id_t) (task : Closure) :
  checked (t0, task) -> completes checked (run_closure' t task).
Proof.
  intros Hok w.
  destruct task as [cb m|path cb|rc path handler|extension rm];
    cbn [run_closure].
  - destruct (thread_eqb t TID_UI) eqn:E.
    + apply thread_eqb_eq in E; subst t. destruct cb as [rc path handler].
      rewrite RunManifestCallback_on_UI.
      eexists tt, _, []; split; [reflexivity|]; simpl.
      now rewrite app_nil_r.
    + apply thread_eqb_neq in E.
      rewrite RunManifestCallback_off_UI by assumption.
      eexists tt, _, [_]; split; [reflexivity|]; simpl.
      split; [reflexivity|]. now repeat constructor.
  - destruct (thread_eqb t TID_FILE) eqn:E.
    + apply thread_eqb_eq in E; subst t.
      destruct (GetInternalManifest_on_FILE
                  os kPathSep CefGetPath JoinPath LoadBinaryResource
                  CefParseJSONAndReturnError path cb w)
        as (mp & logs & _ & _ & ->).
      eexists tt, _, [_]; split; [reflexivity|]; simpl.
      split; [reflexivity|]. now repeat constructor.
    + apply thread_eqb_neq in E.
      rewrite GetInternalManifest_off_FILE by assumption.
      eexists tt, _, [_]; split; [reflexivity|]; simpl.
      split; [reflexivity|]. now repeat constructor.
  - destruct (thread_eqb t TID_UI) eqn:E.
    + apply thread_eqb_eq in E; subst t.
      destruct (LoadExtension_on_UI rc path handler w) as (b & _ & ->).
      eexists tt, _, _; split; [reflexivity|]; simpl.
      split; [reflexivity|]. destruct b; now repeat constructor.
    + apply thread_eqb_neq in E.
      rewrite LoadExtension_off_UI by assumption.
      eexists tt, _, [_]; split; [reflexivity|]; simpl.
      split; [reflexivity|]. now repeat constructor.
  - destruct (AddInternalExtensionToResourceManager_checked
                t extension rm w Hok) as (rp & _ & ->).
    destruct (thread_eqb t TID_IO).
    + eexists tt, _, []; split; [reflexivity|]; simpl.
      now rewrite app_nil_r.
    + eexists tt, _, [_]; split; [reflexivity|]; simpl.
      split; [reflexivity|]. now repeat constructor.
Qed.

(** X8: the one fatal fault of these tasks is a registration for an
    extension that is not internal.  If every registration waiting at
    the start is for an internal extension, the process never crashes,
    whatever the order the threads run in: the thread checks of the
    loader never fail and no string operation goes out of range. *)
Theorem pipeline_never_faults (w : World) (p : Process) :
  Forall checked (pending w) ->
  steps' (Alive w) p ->
  exists w', p = Alive w' /\ Forall checked (pending w').
Proof.
  intros Hok Hsteps.
  remember (Alive w) as s eqn:Es.
  revert w Es Hok.
  induction Hsteps as [s|s q r Hsq Hqr IH]; intros w Es Hok; subst s.
  - now exists w.
  - inversion Hsq as [w0 t task rest Hd]; subst.
    destruct (dequeue_In _ _ _ _ Hd) as [Hin Hrest].
    rewrite Forall_forall in Hok.
    destruct (run_closure_completes t t task (Hok _ Hin)
                {| pending := rest; trace := trace w |})
      as ([] & w1 & posted & E & Ep & Hposted).
    rewrite E in Hqr, IH; cbn [after] in Hqr, IH.
    apply (IH w1 eq_refl).
    rewrite Ep; cbn [pending]. apply Forall_app; split; [|exact Hposted].
    apply Forall_forall; auto.
Qed.

(** With one task waiting, the process is either still waiting or has
    run that task. *)
Lemma steps_single_inv (t : cef_thread_id_t) (task : Closure)
      (tr : list Event) (p : Process) :
  steps' (Alive {| pending := [(t, task)]; trace := tr |}) p ->
  p = Alive {| pending := [(t, task)]; trace := tr |}
  \/ steps' (after (run_closure' t task {| pending := []; trace := tr |})) p.
Proof.
  intros H. inversion H as [|? q ? Hstep Hrest]; subst; [now left|right].
  apply step_single in Hstep. now subst q.
Qed.

(** X10: registering an internal extension from any thread ends with
    the provider registered once, on the IO thread, under the origin of
    the extension and at order 50: a binary provider for its internal
    resource path in a Windows build, a directory provider for that
    path under the resource directory in a POSIX build, and nothing at
    all, without any fault, where the POSIX build finds no resource
    directory. *)
Theorem registration_adds_one_provider
        (t : cef_thread_id_t) (extension : CefExtension)
        (rm : CefResourceManager) :
  IsInternalExtension' (GetPath extension) = Some true ->
  exists resource_path,
    GetInternalExtensionResourcePath os kPathSep CefGetPath
                                     (GetPath extension)
    = Some resource_path
    /\ let start :=
         after (AddInternalExtensionToResourceManager' t extension rm idle) in
       (exists final, steps' start final /\ quiescent final)
       /\ forall p,
            steps' start p -> quiescent p ->
            providers (trace (world_of p))
            = match os, GetResourceDir with
              | OS_WIN, _ =>
                  [Ev_AddProvider
                     TID_IO rm (GetExtensionOrigin (GetIdentifier extension))
                     resource_path 50 ""%string]
              | OS_POSIX, Some resource_dir =>
                  [Ev_AddDirectoryProvider
                     TID_IO rm (GetExtensionOrigin (GetIdentifier extension))
                     (resource_dir ++ "/" ++ resource_path)%string
                     50 ""%string]
              | OS_POSIX, None => []
              end.
Proof.
  intros Hint.
  assert (Hrun := fun t w =>
            AddInternalExtensionToResourceManager_checked t extension rm w Hint).
  destruct (Hrun TID_IO idle) as (rp & Hrp & Hio).
  exists rp; split; [exact Hrp|]. cbv zeta.
  assert (Hprov : forall (tr : list Event) p,
             providers tr = [] ->
             steps' (after (AddInternalExtensionToResourceManager'
                              TID_IO extension rm
                              {| pending := []; trace := tr |})) p ->
             quiescent p /\
             providers (trace (world_of p))
             = match os, GetResourceDir with
               | OS_WIN, _ =>
                   [Ev_AddProvider
                      TID_IO rm (GetExtensionOrigin (GetIdentifier extension))
                      rp 50 ""%string]
               | OS_POSIX, Some resource_dir =>
                   [Ev_AddDirectoryProvider
                      TID_IO rm (GetExtensionOrigin (GetIdentifier extension))
                      (resource_dir ++ "/" ++ rp)%string 50 ""%string]
               | OS_POSIX, None => []
               end).
  { intros tr p Htr Hp.
    destruct (Hrun TID_IO {| pending := []; trace := tr |})
      as (rp' & Hrp' & E).
    assert (rp' = rp) by congruence; subst rp'.
    rewrite E in Hp; cbn [thread_eqb after pending trace] in Hp.
    apply steps_from_idle in Hp; [subst p|reflexivity].
    split; [eexists; split; reflexivity|].
    cbn [world_of trace]. rewrite providers_app, Htr.
    destruct os; [|destruct GetResourceDir]; reflexivity. }
  destruct (thread_eqb t TID_IO) eqn:E.
  - apply thread_eqb_eq in E; subst t. split.
    + eexists; split; [apply steps_refl|].
      apply (Hprov [] _ eq_refl), steps_refl.
    + intros p Hp _. now apply (Hprov [] p eq_refl).
  - destruct (Hrun t idle) as (rp' & _ & Et). rewrite E in Et.
    rewrite Et; cbn [after idle pending trace app].
    set (posted := [Ev_CefPostTask
                      t TID_IO
                      (Bind_AddInternalExtensionToResourceManager
                         extension rm)]).
    split.
    + eexists; split.
      * eapply steps_step; [apply step_single_exists|apply steps_refl].
      * cbn [run_closure].
        apply (Hprov posted _ eq_refl), steps_refl.
    + intros p Hp Hq.
      apply steps_single_inv in Hp as [-> | Hp].
      * destruct Hq as (w' & [= <-] & Hw'); discriminate.
      * cbn [run_closure] in Hp. now apply (Hprov posted p eq_refl).
Qed.

(** X11: nothing guards against a second registration: on the IO
    thread each call for an internal extension adds its provider behind
    the providers already registered, so two calls leave it twice. *)
Theorem registration_does_not_deduplicate
        (extension : CefExtension) (rm : CefResourceManager) (w : World) :
  IsInternalExtension' (GetPath extension) = Some true ->
  os = OS_WIN \/ GetResourceDir <> None ->
  exists entry w',
    bind (AddInternalExtensionToResourceManager' TID_IO extension rm)
         (fun _ => AddInternalExtensionToResourceManager' TID_IO extension rm)
         w
    = Done tt w'
    /\ providers (trace w') = providers (trace w) ++ [entry; entry]
    /\ pending w' = pending w.
Proof.
  intros Hint Hplat.
  assert (Hrun := fun w =>
            AddInternalExtensionToResourceManager_checked
              TID_IO extension rm w Hint).
  unfold bind.
  destruct (Hrun w) as (rp & Hrp & ->); cbn [thread_eqb].
  match goal with
  | |- context [AddInternalExtensionToResourceManager' _ _ _ ?w1] =>
      destruct (Hrun w1) as (rp' & Hrp' & ->)
  end.
  assert (rp' = rp) by congruence; subst rp'.
  cbn [thread_eqb pending trace].
  destruct os.
  - eexists _, _; split; [reflexivity|]. cbn [trace pending].
    rewrite !providers_app, <- app_assoc. now split.
  - destruct GetResourceDir as [dir|].
    + eexists _, _; split; [reflexivity|]. cbn [trace pending].
      rewrite !providers_app, <- app_assoc. now split.
    + destruct Hplat as [Hplat|Hplat]; [discriminate|now contradiction Hplat].
Qed.

Ltac read_events :=
  repeat first
    [ rewrite engine_loads_app | rewrite resource_reads_app
    | rewrite posts_app
    | rewrite engine_loads_logs | rewrite resource_reads_logs
    | rewrite posts_logs
    | progress cbn [engine_loads resource_reads posts app world_of trace
                    idle map fst] ].

(** An internal extension whose load has reached the UI thread: the
    three states the process goes through from there. *)
Lemma internal_load_from_UI
      (rc : CefRequestContext) (path : string) (handler : CefExtensionHandler)
      (tr0 : list Event) :
  IsInternalExtension' path = Some true ->
  engine_loads tr0 = [] -> resource_reads tr0 = [] ->
  exists manifest_path,
    GetInternalExtensionResourcePath os kPathSep CefGetPath
      (JoinPath path "manifest.json") = Some manifest_path
    /\ let manifest :=
         spec_manifest (LoadBinaryResource (StdString.c_str manifest_path))
                       CefParseJSONAndReturnError in
       let s1 :=
         after (LoadExtension' TID_UI rc path handler
                               {| pending := []; trace := tr0 |}) in
       (exists final, steps' s1 final /\ quiescent final)
       /\ forall p,
            steps' s1 p ->
            (exists w, p = Alive w)
            /\ (engine_loads (trace (world_of p)) = [] \/ quiescent p)
            /\ (quiescent p ->
                engine_loads (trace (world_of p))
                = [Ev_LoadExtension TID_UI rc path manifest handler]
                /\ resource_reads (trace (world_of p))
                   = [StdString.c_str manifest_path]
                /\ map fst (posts (trace (world_of p)))
                   = map fst (posts tr0) ++ [TID_FILE; TID_UI]).
Proof.
  intros Hint Hloads Hreads.
  destruct (LoadExtension_on_UI rc path handler
                                {| pending := []; trace := tr0 |})
    as (b & Hb & Hs1).
  assert (b = true) by congruence; subst b.
  cbn [pending trace app] in Hs1.
  set (cb := Bind_LoadExtensionWithManifest rc path handler) in *.
  set (tr1 := tr0 ++ [Ev_CefPostTask TID_UI TID_FILE
                                     (Bind_GetInternalManifest path cb)]) in *.
  destruct (loader_states os kPathSep CefGetPath JoinPath LoadBinaryResource
                          GetResourceDir CefParseJSONAndReturnError
                          path cb {| pending := []; trace := tr1 |} eq_refl)
    as (mp & logs & Hmp & H).
  exists mp; split; [exact Hmp|]. cbv zeta in *.
  destruct H as (_ & Hwaiting & Hrun & Hall).
  set (manifest := spec_manifest _ _) in *.
  rewrite Hs1; cbn [after].
  cbn [trace] in Hwaiting, Hrun, Hall.
  split.
  - eexists; split.
    + eapply steps_step; [apply step_single_exists|].
      cbn [run_closure]. rewrite Hwaiting. exact Hrun.
    + eexists; split; reflexivity.
  - intros p Hp.
    apply steps_single_inv in Hp as [-> | Hp].
    { split; [eauto|]. split.
      - left. unfold tr1. read_events. now rewrite Hloads.
      - intros (w' & [= <-] & Hw'); discriminate. }
    cbn [run_closure] in Hp. rewrite Hwaiting in Hp.
    destruct (Hall p Hp) as [-> | ->].
    { split; [eauto|]. split.
      - left. unfold tr1. read_events. now rewrite Hloads.
      - intros (w' & [= <-] & Hw'); discriminate. }
    split; [eauto|]. split; [right; eexists; split; reflexivity|].
    intros _. unfold tr1, cb. read_events.
    rewrite Hloads, Hreads. cbn [app].
    rewrite app_nil_r, !map_app, <- app_assoc. now cbn [map fst app].
Qed.

(** X9: loading an internal extension from any thread never crashes
    and comes to rest after the load has moved to the UI thread, the
    manifest has been read once on the FILE thread and the result has
    come back to the UI thread; the engine is asked to load the
    extension exactly once, as the last thing that happens, with the
    parsed manifest, or with none where reading or parsing failed. *)
Theorem internal_extension_loads_with_its_manifest
        (t : cef_thread_id_t) (rc : CefRequestContext) (path : string)
        (handler : CefExtensionHandler) :
  IsInternalExtension' path = Some true ->
  exists manifest_path,
    GetInternalExtensionResourcePath os kPathSep CefGetPath
      (JoinPath path "manifest.json") = Some manifest_path
    /\ let manifest :=
         spec_manifest (LoadBinaryResource (StdString.c_str manifest_path))
                       CefParseJSONAndReturnError in
       let start := after (LoadExtension' t rc path handler idle) in
       (exists final, steps' start final /\ quiescent final)
       /\ forall p,
            steps' start p ->
            (exists w, p = Alive w)
            /\ (engine_loads (trace (world_of p)) = [] \/ quiescent p)
            /\ (quiescent p ->
                engine_loads (trace (world_of p))
                = [Ev_LoadExtension TID_UI rc path manifest handler]
                /\ resource_reads (trace (world_of p))
                   = [StdString.c_str manifest_path]
                /\ map fst (posts (trace (world_of p)))
                   = (if thread_eqb t TID_UI then [] else [TID_UI])
                     ++ [TID_FILE; TID_UI]).
Proof.
  intros Hint.
  destruct (thread_eqb t TID_UI) eqn:E.
  - apply thread_eqb_eq in E; subst t.
    apply (internal_load_from_UI rc path handler [] Hint eq_refl eq_refl).
  - apply thread_eqb_neq in E.
    set (tr0 := [Ev_CefPostTask t TID_UI (Bind_LoadExtension rc path handler)]).
    destruct (internal_load_from_UI rc path handler tr0 Hint eq_refl eq_refl)
      as (mp & Hmp & H).
    exists mp; split; [exact Hmp|]. cbv zeta in *.
    destruct H as ((final & Hfinal & Hq) & Hall).
    rewrite LoadExtension_off_UI by assumption.
    cbn [after idle pending trace app]. fold tr0.
    split.
    + exists final; split; [|exact Hq].
      eapply steps_step; [apply step_single_exists|exact Hfinal].
    + intros p Hp.
      apply steps_single_inv in Hp as [-> | Hp].
      * split; [eauto|]. split; [now left|].
        intros (w' & [= <-] & Hw'); discriminate.
      * cbn [run_closure] in Hp. exact (Hall p Hp).
Qed.

End PipelineFacts.

(** ** Resource contents *)

Section ResourceContentsFacts.

Variable os : platform.
Variable kPathSep : ascii.
Variable CefGetPath : cef_path_key_t -> option string.

(** X12: on the FILE thread [GetExtensionResourceContents] reads one
    source, chosen by the classification of the path: an internal path
    is read from the binary resources under its internal resource
    path, whatever the file system holds, and any other path is read
    from the file system as it is, without touching the binary
    resources. *)
Theorem resource_contents_come_from_one_source
        (LoadBinaryResource ReadFileToString : string -> bool * string)
        (path : string) (w : World) :
  exists is_internal resource_path,
    IsInternalExtension os kPathSep CefGetPath path = Some is_internal
    /\ GetInternalExtensionResourcePath os kPathSep CefGetPath path
       = Some resource_path
    /\ if is_internal
       then
         forall read_file,
           GetExtensionResourceContents
             os kPathSep CefGetPath LoadBinaryResource read_file
             TID_FILE path w
           = Done (LoadBinaryResource (StdString.c_str resource_path))
                  {| pending := pending w;
                     trace := trace w
                              ++ [Ev_LoadBinaryResource
                                    TID_FILE
                                    (StdString.c_str resource_path)] |}
       else
         forall load_resource,
           GetExtensionResourceContents
             os kPathSep CefGetPath load_resource ReadFileToString
             TID_FILE path w
           = Done (ReadFileToString path) w.
Proof.
  destruct (resource_paths_spec os kPathSep CefGetPath path None)
    as (Hrp & b & Hb & _).
  exists b. eexists. split; [exact Hb|]. split; [exact Hrp|].
  unfold GetExtensionResourceContents, CEF_REQUIRE_FILE_THREAD, bind,
    DCHECK, unhandled, emit, ret.
  cbn [CefCurrentlyOn thread_eqb]. rewrite Hb.
  destruct b; [|reflexivity].
  intros read_file. now rewrite Hrp.
Qed.

End ResourceContentsFacts.

Lemma resource_contents_witness :
  (forall read_file,
      GetExtensionResourceContents
        OS_POSIX slash Sample.resources Sample.load read_file
        TID_FILE "/opt/app/set_page_color/manifest.json" idle
      = Done (true, Sample.manifest_text)
             {| pending := [];
                trace := [Ev_LoadBinaryResource
                            TID_FILE
                            "extensions/set_page_color/manifest.json"] |})
  /\ (forall load_resource,
        GetExtensionResourceContents
          OS_POSIX slash Sample.resources load_resource SampleApp.read_file
          TID_FILE "/home/user/my_extension/popup.html" idle
        = Done (true, "<html></html>"%string) idle).
Proof.
  split.
  - destruct (resource_contents_come_from_one_source
                OS_POSIX slash Sample.resources Sample.load
                SampleApp.read_file
                "/opt/app/set_page_color/manifest.json" idle)
      as (b & rp & Hb & Hrp & H).
    assert (Eb : b = true) by (vm_compute in Hb; congruence).
    assert (Erp : rp = "extensions/set_page_color/manifest.json"%string)
      by (vm_compute in Hrp; congruence).
    subst b rp. exact H.
  - destruct (resource_contents_come_from_one_source
                OS_POSIX slash Sample.resources Sample.load
                SampleApp.read_file
                "/home/user/my_extension/popup.html" idle)
      as (b & rp & Hb & Hrp & H).
    assert (Eb : b = false) by (vm_compute in Hb; congruence).
    subst b. exact H.
Defined.

(** The sample extension read on the FILE thread: the popup of an
    extension on disk comes from the disk, the manifest of the bundled
    one from the binary. *)
Example resource_contents_samples :
  GetExtensionResourceContents
    OS_POSIX slash Sample.resources Sample.load SampleApp.read_file
    TID_FILE "/home/user/my_extension/popup.html" idle
  = Done (true, "<html></html>"%string) idle
  /\ GetExtensionResourceContents
       OS_POSIX slash Sample.resources Sample.load SampleApp.read_file
       TID_FILE "/opt/app/set_page_color/manifest.json" idle
     = Done (true, Sample.manifest_text)
            {| pending := [];
               trace := [Ev_LoadBinaryResource
                           TID_FILE
                           "extensions/set_page_color/manifest.json"] |}.
Proof. split; reflexivity. Qed.

(** ** The command line of the browser process *)

Import CommandLine.

Lemma HasSwitch_app (name : string) (a b : CefCommandLine) :
  HasSwitch name (a ++ b) = HasSwitch name a || HasSwitch name b.
Proof. apply existsb_app. Qed.

Lemma HasSwitch_AppendSwitchWithValue (name added value : string)
      (command_line : CefCommandLine) :
  HasSwitch name (AppendSwitchWithValue added value command_line)
  = HasSwitch name command_line || String.eqb added name.
Proof.
  unfold AppendSwitchWithValue. rewrite HasSwitch_app; simpl.
  now rewrite orb_false_r.
Qed.

Lemma HasSwitch_AppendSwitch (name added : string)
      (command_line : CefCommandLine) :
  HasSwitch name (AppendSwitch added command_line)
  = HasSwitch name command_line || String.eqb added name.
Proof. apply (HasSwitch_AppendSwitchWithValue name added ""%string). Qed.

Lemma values_of_app (name : string) (a b : CefCommandLine) :
  values_of name (a ++ b) = values_of name a ++ values_of name b.
Proof. unfold values_of. now rewrite filter_app, map_app. Qed.

Lemma values_of_absent (name : string) (command_line : CefCommandLine) :
  HasSwitch name command_line = false -> values_of name command_line = [].
Proof.
  unfold values_of, HasSwitch.
  induction command_line as [|s cl IH]; simpl; [reflexivity|].
  destruct (String.eqb (fst s) name); simpl; [discriminate|exact IH].
Qed.

(** Names proved pairwise distinct are distinct two by two. *)
Lemma all_distinct_cons (n : string) (rest : list string) :
  all_distinct (n :: rest) = true ->
  (forall m, In m rest -> String.eqb n m = false /\ String.eqb m n = false)
  /\ all_distinct rest = true.
Proof.
  simpl. intros H. apply andb_true_iff in H as [Hn Hrest].
  split; [|exact Hrest].
  intros m Hm.
  assert (E : String.eqb n m = false).
  { destruct (String.eqb n m) eqn:E; [|reflexivity].
    apply negb_true_iff in Hn.
    assert (existsb (String.eqb n) rest = true); [|congruence].
    apply existsb_exists. now exists m. }
  split; [exact E|]. now rewrite String.eqb_sym.
Qed.

Section AppFacts.

Variable switches : ClientSwitches.
Variable delegates_ : list Delegate.

(** The flags only ever come behind the command line given. *)
Lemma browser_process_flags_extend (command_line : CefCommandLine) :
  exists added,
    browser_process_flags switches command_line = command_line ++ added.
Proof.
  unfold browser_process_flags, AppendSwitch, AppendSwitchWithValue.
  repeat match goal with
         | |- context [if ?c then _ else _] => destruct c
         end;
    rewrite <- ?app_assoc; eexists; reflexivity.
Qed.

(** For a process type that is not empty, that is for any process
    but the browser process, [OnBeforeCommandLineProcessing] leaves the
    command line as it is and calls no delegate. *)
Lemma other_processes_keep_their_command_line
        (process_type : string) (command_line : CefCommandLine) :
  process_type <> ""%string ->
  OnBeforeCommandLineProcessing switches delegates_ process_type command_line
  = command_line.
Proof.
  intros H. unfold OnBeforeCommandLineProcessing.
  now rewrite (proj2 (empty_false process_type) H).
Qed.

(** X13: for the browser process the delegates are handed, in their
    order, a command line that still begins with the one given and in
    which the switches [kUseViews], [kHideFrame], [kHideControls],
    [disable-web-security] and [top-chrome-md] are all present, as is
    [kCachePath] or else [disable-gpu-shader-disk-cache]: since
    [kUseViews] has just been appended, the test on it never keeps
    [top-chrome-md] out. *)
Theorem browser_process_flags_present (command_line : CefCommandLine) :
  let flags := browser_process_flags switches command_line in
  OnBeforeCommandLineProcessing switches delegates_ "" command_line
  = fold_left (fun cl delegate =>
                 Delegate_OnBeforeCommandLineProcessing delegate cl)
              delegates_ flags
  /\ (exists added, flags = command_line ++ added)
  /\ HasSwitch (kUseViews switches) flags = true
  /\ HasSwitch (kHideFrame switches) flags = true
  /\ HasSwitch (kHideControls switches) flags = true
  /\ HasSwitch "disable-web-security" flags = true
  /\ HasSwitch "top-chrome-md" flags = true
  /\ (HasSwitch (kCachePath switches) flags = true
      \/ HasSwitch "disable-gpu-shader-disk-cache" flags = true).
Proof.
  cbv zeta. split; [reflexivity|].
  split; [apply browser_process_flags_extend|].
  unfold browser_process_flags.
  set (c4 := AppendSwitchWithValue _ _ (AppendSwitch _ (AppendSwitch _ (AppendSwitch _ _)))).
  assert (H4 : HasSwitch (kUseViews switches) c4 = true
               /\ HasSwitch (kHideFrame switches) c4 = true
               /\ HasSwitch (kHideControls switches) c4 = true
               /\ HasSwitch "disable-web-security" c4 = true).
  { unfold c4.
    rewrite !HasSwitch_AppendSwitchWithValue, !HasSwitch_AppendSwitch.
    rewrite !String.eqb_refl, ?orb_true_r. simpl. now rewrite ?orb_true_r. }
  set (c5 := if HasSwitch (kOffScreenRenderingEnabled switches) c4
                && negb (HasSwitch (kSharedTextureEnabled switches) c4)
             then _ else c4).
  assert (H5 : forall name, HasSwitch name c4 = true ->
                            HasSwitch name c5 = true).
  { intros name H. unfold c5.
    repeat match goal with
           | |- context [if ?c then _ else _] => destruct c
           end; auto.
    rewrite !HasSwitch_AppendSwitch, H. reflexivity. }
  set (c6 := if HasSwitch (kUseViews switches) c5
                && negb (HasSwitch "top-chrome-md" c5)
             then _ else c5).
  assert (H6 : forall name, HasSwitch name c5 = true ->
                            HasSwitch name c6 = true).
  { intros name H. unfold c6.
    match goal with
    | |- context [if ?c then _ else _] => destruct c
    end; auto.
    rewrite HasSwitch_AppendSwitchWithValue, H. reflexivity. }
  assert (Htop : HasSwitch "top-chrome-md" c6 = true).
  { unfold c6. rewrite (H5 _ (proj1 H4)); cbn [andb].
    destruct (HasSwitch "top-chrome-md" c5) eqn:E; cbn [negb]; [exact E|].
    rewrite HasSwitch_AppendSwitchWithValue, E. reflexivity. }
  set (c7 := if negb (HasSwitch (kCachePath switches) c6)
                && negb (HasSwitch "disable-gpu-shader-disk-cache" c6)
             then _ else c6).
  assert (H7 : forall name, HasSwitch name c6 = true ->
                            HasSwitch name c7 = true).
  { intros name H. unfold c7.
    match goal with
    | |- context [if ?c then _ else _] => destruct c
    end; auto.
    rewrite HasSwitch_AppendSwitch, H. reflexivity. }
  destruct H4 as (Ha & Hb & Hc & Hd).
  repeat split; auto.
  unfold c7.
  destruct (HasSwitch (kCachePath switches) c6) eqn:Ec; cbn [negb andb];
    [now left|].
  destruct (HasSwitch "disable-gpu-shader-disk-cache" c6) eqn:Es;
    cbn [negb]; [now right|].
  right. rewrite HasSwitch_AppendSwitch, String.eqb_refl. apply orb_true_r.
Qed.

End AppFacts.

Lemma all_distinct_eqb (names : list string) :
  all_distinct names = true ->
  forall i j a b,
    nth_error names i = Some a -> nth_error names j = Some b -> i <> j ->
    String.eqb a b = false.
Proof.
  induction names as [|n rest IH]; intros Hd i j a b Hi Hj Hij.
  - destruct i; discriminate.
  - apply all_distinct_cons in Hd as [Hn Hrest].
    destruct i as [|i], j as [|j]; simpl in Hi, Hj.
    + congruence.
    + injection Hi as <-. apply Hn. eapply nth_error_In; eauto.
    + injection Hj as <-. apply Hn. eapply nth_error_In; eauto.
    + apply (IH Hrest i j); auto.
Qed.

Lemma values_of_AppendSwitchWithValue (name added value : string)
      (command_line : CefCommandLine) :
  values_of name (AppendSwitchWithValue added value command_line)
  = values_of name command_line
    ++ (if String.eqb added name then [value] else []).
Proof.
  unfold AppendSwitchWithValue. rewrite values_of_app. f_equal.
  unfold values_of; simpl. now destruct (String.eqb added name).
Qed.

Lemma values_of_AppendSwitch (name added : string)
      (command_line : CefCommandLine) :
  values_of name (AppendSwitch added command_line)
  = values_of name command_line
    ++ (if String.eqb added name then [""%string] else []).
Proof. apply (values_of_AppendSwitchWithValue name added ""%string). Qed.

(** Two names at different places of a list of distinct names. *)
Ltac distinct_at Hd i j :=
  lazymatch j with
  | 12 => fail
  | _ =>
      first
        [ solve [ apply (all_distinct_eqb _ Hd i j);
                  [reflexivity | reflexivity | discriminate] ]
        | let j' := eval compute in (S j) in distinct_at Hd i j' ]
  end.

Ltac distinct_from Hd i :=
  lazymatch i with
  | 12 => fail
  | _ =>
      first
        [ distinct_at Hd i 0
        | let i' := eval compute in (S i) in distinct_from Hd i' ]
  end.

(** Deciding the comparisons of switch names left in the goal. *)
Ltac compare_names Hd :=
  repeat match goal with
         | |- context [String.eqb ?a ?a] => rewrite (String.eqb_refl a)
         | |- context [String.eqb ?a ?b] =>
             let E := fresh "E" in
             assert (E : String.eqb a b = false) by distinct_from Hd 0;
             rewrite E; clear E
         end.

Section AppChoices.

Variable switches : ClientSwitches.

Hypothesis names_distinct : all_distinct (switch_names switches) = true.

(** X14: the browser process gets [disable-gpu] and
    [disable-gpu-compositing] exactly when off-screen rendering is
    enabled on the command line given, shared textures are not, and
    [kEnableGPU] is not passed; otherwise the two switches are present
    only if they were given. *)
Theorem gpu_is_disabled_for_plain_off_screen_rendering
        (command_line : CefCommandLine) :
  let flags := browser_process_flags switches command_line in
  let software :=
    HasSwitch (kOffScreenRenderingEnabled switches) command_line
    && negb (HasSwitch (kSharedTextureEnabled switches) command_line)
    && negb (HasSwitch (kEnableGPU switches) command_line) in
  HasSwitch "disable-gpu" flags
  = HasSwitch "disable-gpu" command_line || software
  /\ HasSwitch "disable-gpu-compositing" flags
     = HasSwitch "disable-gpu-compositing" command_line || software.
Proof.
  cbv zeta. unfold browser_process_flags.
  set (c4 := AppendSwitchWithValue _ _ (AppendSwitch _ (AppendSwitch _ (AppendSwitch _ _)))).
  assert (H4 : forall name,
             String.eqb (kUseViews switches) name = false ->
             String.eqb (kHideFrame switches) name = false ->
             String.eqb (kHideControls switches) name = false ->
             String.eqb "disable-web-security" name = false ->
             HasSwitch name c4 = HasSwitch name command_line).
  { intros name E1 E2 E3 E4. unfold c4.
    rewrite HasSwitch_AppendSwitchWithValue, !HasSwitch_AppendSwitch.
    rewrite E1, E2, E3, E4. now rewrite !orb_false_r. }
  rewrite !(H4 (kOffScreenRenderingEnabled switches)),
          !(H4 (kSharedTextureEnabled switches)),
          !(H4 (kEnableGPU switches))
    by distinct_from names_distinct 0.
  pose proof (H4 "disable-gpu"%string) as Hg.
  pose proof (H4 "disable-gpu-compositing"%string) as Hc.
  rewrite <- Hg, <- Hc by distinct_from names_distinct 0.
  clear H4 Hg Hc.
  destruct (HasSwitch (kOffScreenRenderingEnabled switches) command_line);
    destruct (HasSwitch (kSharedTextureEnabled switches) command_line);
    destruct (HasSwitch (kEnableGPU switches) command_line);
    cbn [andb negb];
    repeat match goal with
           | |- context [if ?c then _ else _] => destruct c
           end;
    repeat first [ rewrite HasSwitch_AppendSwitchWithValue
                 | rewrite HasSwitch_AppendSwitch ];
    compare_names names_distinct;
    repeat rewrite orb_false_r; repeat rewrite orb_true_r;
    split; reflexivity.
Qed.

(** X15: what the user passed is kept.  A [top-chrome-md] given on
    the command line keeps its values and gets no other, and only a
    command line without it gets [non-material];
    [disable-gpu-shader-disk-cache] is added exactly when neither it
    nor [kCachePath] was given; [disable-web-security] always gets the
    value [true] behind any value given. *)
Theorem given_switches_are_respected (command_line : CefCommandLine) :
  let flags := browser_process_flags switches command_line in
  values_of "top-chrome-md" flags
  = (if HasSwitch "top-chrome-md" command_line
     then values_of "top-chrome-md" command_line
     else ["non-material"%string])
  /\ HasSwitch "disable-gpu-shader-disk-cache" flags
     = HasSwitch "disable-gpu-shader-disk-cache" command_line
       || negb (HasSwitch (kCachePath switches) command_line)
  /\ values_of "disable-web-security" flags
     = values_of "disable-web-security" command_line ++ ["true"%string].
Proof.
  cbv zeta. unfold browser_process_flags.
  set (c4 := AppendSwitchWithValue _ _ (AppendSwitch _ (AppendSwitch _ (AppendSwitch _ _)))).
  assert (Hu4 : HasSwitch (kUseViews switches) c4 = true).
  { unfold c4.
    rewrite HasSwitch_AppendSwitchWithValue, !HasSwitch_AppendSwitch.
    rewrite String.eqb_refl. now rewrite !orb_true_r. }
  assert (H4 : forall name,
             String.eqb (kUseViews switches) name = false ->
             String.eqb (kHideFrame switches) name = false ->
             String.eqb (kHideControls switches) name = false ->
             HasSwitch name c4
             = HasSwitch name command_line
               || String.eqb "disable-web-security" name
             /\ values_of name c4
                = values_of name command_line
                  ++ (if String.eqb "disable-web-security" name
                      then ["true"%string] else [])).
  { intros name E1 E2 E3. unfold c4.
    rewrite HasSwitch_AppendSwitchWithValue, !HasSwitch_AppendSwitch.
    rewrite values_of_AppendSwitchWithValue, !values_of_AppendSwitch.
    rewrite E1, E2, E3. now rewrite !orb_false_r, !app_nil_r. }
  set (c5 := if HasSwitch (kOffScreenRenderingEnabled switches) c4
                && negb (HasSwitch (kSharedTextureEnabled switches) c4)
             then _ else c4).
  assert (H5 : forall name,
             String.eqb "disable-gpu" name = false ->
             String.eqb "disable-gpu-compositing" name = false ->
             HasSwitch name c5 = HasSwitch name c4
             /\ values_of name c5 = values_of name c4).
  { intros name E1 E2. unfold c5.
    repeat match goal with
           | |- context [if ?c then _ else _] => destruct c
           end; auto.
    rewrite !HasSwitch_AppendSwitch, !values_of_AppendSwitch, E1, E2.
    now rewrite !orb_false_r, !app_nil_r. }
  assert (Hu5 : HasSwitch (kUseViews switches) c5 = true).
  { rewrite (proj1 (H5 (kUseViews switches)
                       ltac:(distinct_from names_distinct 0)
                       ltac:(distinct_from names_distinct 0))).
    exact Hu4. }
  assert (Hcl : forall name,
             String.eqb (kUseViews switches) name = false ->
             String.eqb (kHideFrame switches) name = false ->
             String.eqb (kHideControls switches) name = false ->
             String.eqb "disable-gpu" name = false ->
             String.eqb "disable-gpu-compositing" name = false ->
             HasSwitch name c5
             = HasSwitch name command_line
               || String.eqb "disable-web-security" name
             /\ values_of name c5
                = values_of name command_line
                  ++ (if String.eqb "disable-web-security" name
                      then ["true"%string] else [])).
  { intros name E1 E2 E3 E4 E5.
    destruct (H5 name E4 E5) as [-> ->]. now apply H4. }
  clearbody c5. clear H4 H5 Hu4. clearbody c4.
  destruct (Hcl "top-chrome-md"%string) as [Ht Vt];
    try distinct_from names_distinct 0.
  destruct (Hcl "disable-web-security"%string) as [_ Vw];
    try distinct_from names_distinct 0.
  destruct (Hcl (kCachePath switches)) as [Hc _];
    try distinct_from names_distinct 0.
  destruct (Hcl "disable-gpu-shader-disk-cache"%string) as [Hs _];
    try distinct_from names_distinct 0.
  clear Hcl.
  assert (Ec : String.eqb "disable-web-security" (kCachePath switches)
               = false) by distinct_from names_distinct 0.
  cbn [String.eqb Ascii.eqb Bool.eqb] in Ht, Vt, Vw, Hs.
  rewrite Ec in Hc. rewrite orb_false_r in Ht, Hc, Hs.
  rewrite app_nil_r in Vt.
  rewrite Hu5, Ht; cbn [andb].
  destruct (HasSwitch "top-chrome-md" command_line) eqn:Etop;
    destruct (HasSwitch (kCachePath switches) command_line) eqn:Ecache;
    destruct (HasSwitch "disable-gpu-shader-disk-cache" command_line)
      eqn:Eshader;
    cbn [negb andb orb];
    repeat (progress
              (repeat first [ rewrite HasSwitch_AppendSwitchWithValue
                            | rewrite HasSwitch_AppendSwitch
                            | rewrite values_of_AppendSwitchWithValue
                            | rewrite values_of_AppendSwitch ];
               compare_names names_distinct;
               rewrite ?Hc, ?Hs, ?orb_false_r, ?orb_true_r;
               cbn [negb andb orb]));
    rewrite ?Vt, ?Vw, ?app_nil_r;
    try rewrite (values_of_absent _ _ Etop);
    repeat split; reflexivity.
Qed.

End AppChoices.

Lemma SampleApp_names_distinct :
  all_distinct (switch_names SampleApp.switches) = true.
Proof. reflexivity. Qed.

Lemma other_processes_witness :
  OnBeforeCommandLineProcessing
    SampleApp.switches [] "renderer" [("type", "renderer")%string]
  = [("type", "renderer")%string].
Proof.
  apply (other_processes_keep_their_command_line
           SampleApp.switches [] "renderer" [("type", "renderer")%string]).
  discriminate.
Defined.

Lemma gpu_rule_witness :
  HasSwitch "disable-gpu"
            (browser_process_flags
               SampleApp.switches
               [("off-screen-rendering-enabled", "")%string])
  = true.
Proof.
  apply (proj1 (gpu_is_disabled_for_plain_off_screen_rendering
                  SampleApp.switches SampleApp_names_distinct
                  [("off-screen-rendering-enabled", "")%string])).
Defined.

Lemma given_switches_witness :
  values_of "top-chrome-md"
            (browser_process_flags
               SampleApp.switches [("top-chrome-md", "material")%string])
  = ["material"%string].
Proof.
  apply (proj1 (given_switches_are_respected
                  SampleApp.switches SampleApp_names_distinct
                  [("top-chrome-md", "material")%string])).
Defined.

(** The browser process started without any switch. *)
Example bare_browser_command_line :
  OnBeforeCommandLineProcessing SampleApp.switches [] "" []
  = [("use-views", ""); ("hide-frame", ""); ("hide-controls", "");
     ("disable-web-security", "true"); ("top-chrome-md", "non-material");
     ("disable-gpu-shader-disk-cache", "")]%string.
Proof. reflexivity. Qed.

(** ** The sample host again *)

Lemma effects_stay_on_their_threads_witness :
  thread_affine
    (trace (world_of
              (drain OS_POSIX slash Sample.resources Sample.join Sample.load
                     Sample.resource_dir Sample.parse 5
                     (after (LoadExtension
                               OS_POSIX slash Sample.resources Sample.join
                               Sample.load Sample.parse
                               TID_IO 1 "/opt/app/set_page_color" 2 idle))))).
Proof.
  apply (effects_stay_on_their_threads
           OS_POSIX slash Sample.resources Sample.join Sample.load
           Sample.resource_dir Sample.parse
           (after (LoadExtension
                     OS_POSIX slash Sample.resources Sample.join
                     Sample.load Sample.parse
                     TID_IO 1 "/opt/app/set_page_color" 2 idle))).
  - apply drain_steps.
  - repeat constructor.
Defined.

Lemma pipeline_never_faults_witness :
  exists w',
    drain OS_POSIX slash Sample.resources Sample.join Sample.load
          Sample.resource_dir Sample.parse 8
          (Alive {| pending :=
                      [(TID_RENDERER,
                        Bind_LoadExtension 1 "/opt/app/set_page_color" 2);
                       (TID_UI,
                        Bind_AddInternalExtensionToResourceManager
                          {| GetIdentifier := "abc123";
                             GetPath := "/opt/app/set_page_color";
                             GetManifest := Sample.manifest |} 9)];
                    trace := [] |})
    = Alive w'
    /\ Forall (registration_checked OS_POSIX slash Sample.resources)
              (pending w').
Proof.
  apply (pipeline_never_faults
           OS_POSIX slash Sample.resources Sample.join Sample.load
           Sample.resource_dir Sample.parse
           {| pending :=
                [(TID_RENDERER,
                  Bind_LoadExtension 1 "/opt/app/set_page_color" 2);
                 (TID_UI,
                  Bind_AddInternalExtensionToResourceManager
                    {| GetIdentifier := "abc123";
                       GetPath := "/opt/app/set_page_color";
                       GetManifest := Sample.manifest |} 9)];
              trace := [] |}).
  - repeat constructor.
  - apply drain_steps.
Defined.

Lemma internal_extension_loads_witness :
  exists manifest_path,
    GetInternalExtensionResourcePath
      OS_POSIX slash Sample.resources
      (Sample.join "/opt/app/set_page_color" "manifest.json")
    = Some manifest_path
    /\ exists final,
         steps OS_POSIX slash Sample.resources Sample.join Sample.load
               Sample.resource_dir Sample.parse
               (after (LoadExtension
                         OS_POSIX slash Sample.resources Sample.join
                         Sample.load Sample.parse
                         TID_IO 1 "/opt/app/set_page_color" 2 idle))
               final
         /\ quiescent final.
Proof.
  destruct (internal_extension_loads_with_its_manifest
              OS_POSIX slash Sample.resources Sample.join Sample.load
              Sample.resource_dir Sample.parse
              TID_IO 1 "/opt/app/set_page_color" 2 eq_refl)
    as (manifest_path & Hmp & Hfinal & _).
  exists manifest_path. split; [exact Hmp|exact Hfinal].
Defined.

Lemma registration_adds_one_provider_witness :
  exists resource_path,
    GetInternalExtensionResourcePath
      OS_WIN backslash Sample.resources "/opt/app\set_page_color"
    = Some resource_path
    /\ exists final,
         steps OS_WIN backslash Sample.resources Sample.join Sample.load
               Sample.resource_dir Sample.parse
               (after (AddInternalExtensionToResourceManager
                         OS_WIN backslash Sample.resources
                         Sample.resource_dir TID_UI
                         {| GetIdentifier := "abc123";
                            GetPath := "/opt/app\set_page_color";
                            GetManifest := Sample.manifest |} 9 idle))
               final
         /\ quiescent final.
Proof.
  destruct (registration_adds_one_provider
              OS_WIN backslash Sample.resources Sample.join Sample.load
              Sample.resource_dir Sample.parse TID_UI
              {| GetIdentifier := "abc123";
                 GetPath := "/opt/app\set_page_color";
                 GetManifest := Sample.manifest |} 9 eq_refl)
    as (resource_path & Hrp & Hfinal & _).
  exists resource_path. split; [exact Hrp|exact Hfinal].
Defined.

Lemma registration_does_not_deduplicate_witness :
  exists entry w',
    bind (AddInternalExtensionToResourceManager
            OS_POSIX slash Sample.resources Sample.resource_dir TID_IO
            {| GetIdentifier := "abc123";
               GetPath := "set_page_color";
               GetManifest := Sample.manifest |} 9)
         (fun _ =>
            AddInternalExtensionToResourceManager
              OS_POSIX slash Sample.resources Sample.resource_dir TID_IO
              {| GetIdentifier := "abc123";
                 GetPath := "set_page_color";
                 GetManifest := Sample.manifest |} 9)
         idle
    = Done tt w'
    /\ providers (trace w') = providers (trace idle) ++ [entry; entry]
    /\ pending w' = pending idle.
Proof.
  apply (registration_does_not_deduplicate
           OS_POSIX slash Sample.resources Sample.resource_dir
           {| GetIdentifier := "abc123";
              GetPath := "set_page_color";
              GetManifest := Sample.manifest |} 9 idle).
  - reflexivity.
  - right; discriminate.
Defined.
